(** * smart-zoneminder: identity resolution for detected persons

    A shallow embedding of the two identification programs of the
    repository,

    - [face-det-rec/face_det_rec.py], the one-shot script that matches
      face embeddings against a gallery and votes, and
    - [person-class/person_classifier_server.py], the zerorpc server that
      classifies person crops with a frozen network,

    together with the properties of their decision logic.

    Conventions.  Python [int]s are [Z].  Python [float]s (distances,
    focus measures, probabilities, the vote margin) are modelled by exact
    rationals [Q]; the libraries that produce them (dlib, OpenCV,
    TensorFlow) are collaborators and enter as Section variables.
    Python [dict]s are insertion-ordered and are modelled by association
    lists with unique keys, because [max(counts, key=counts.get)] depends
    on the iteration order.  Exceptions are values of [Py.exn]. *)

From Stdlib Require Import ZArith QArith Qabs List String Bool Lia Arith Permutation.
Import ListNotations.

Local Open Scope Z_scope.

(** ** Python primitives used by both programs *)

Module Py.

(** The exceptions the modelled statements can raise. *)
Inductive exn : Type :=
| SystemExit
| AttributeError
| IndexError
| KeyError
| NameError
| ValueError.

Inductive result (A : Type) : Type :=
| Ok (a : A)
| Raise (e : exn).
Arguments Ok {A} a.
Arguments Raise {A} e.

Definition rbind {A B : Type} (r : result A) (k : A -> result B) : result B :=
  match r with
  | Ok a => k a
  | Raise e => Raise e
  end.

(** A Python value that is either [None] or a [str]: what the variable
    [name] and the field [face] hold. *)
Inductive value : Type :=
| PyNone
| PyStr (s : string).

(** *** Slices

    [a[i:j]] on a sequence of length [n]: a negative bound counts from
    the end, and every bound is clamped into [0..n]
    (the rule of [slice.indices], which numpy follows). *)
Definition slice_bound (n i : Z) : Z :=
  if i <? 0 then Z.max (i + n) 0 else Z.min i n.

Definition slice_start (n i : Z) : nat := Z.to_nat (slice_bound n i).

Definition slice_len (n i j : Z) : nat :=
  Z.to_nat (slice_bound n j - slice_bound n i).

(** *** Insertion-ordered dictionaries with [str] keys and [int] values *)
Definition dict : Type := list (string * Z).

Fixpoint dict_get (d : dict) (k : string) : option Z :=
  match d with
  | [] => None
  | (k', v) :: r => if String.eqb k' k then Some v else dict_get r k
  end.

(** [d.get(k, dflt)] *)
Definition dict_get_default (d : dict) (k : string) (dflt : Z) : Z :=
  match dict_get d k with
  | Some v => v
  | None => dflt
  end.

(** [d[k]] *)
Definition dict_item (d : dict) (k : string) : result Z :=
  match dict_get d k with
  | Some v => Ok v
  | None => Raise KeyError
  end.

(** [d[k] = v]: an existing key keeps its position, a new key goes last. *)
Fixpoint dict_set (d : dict) (k : string) (v : Z) : dict :=
  match d with
  | [] => [(k, v)]
  | (k', v') :: r =>
      if String.eqb k' k then (k', v) :: r else (k', v') :: dict_set r k v
  end.

Definition dict_keys (d : dict) : list string := map fst d.
Definition dict_values (d : dict) : list Z := map snd d.

(** [{n: 0 for n in ns}] *)
Definition dict_zero (ns : list string) : dict :=
  fold_left (fun d n => dict_set d n 0) ns [].

(** *** [max]

    [max(xs)] keeps the first of several maximal items: the running
    maximum is replaced only by a strictly greater item.  On an empty
    argument it raises [ValueError]. *)
Definition max_values (xs : list Z) : result Z :=
  match xs with
  | [] => Raise ValueError
  | x :: r => Ok (fold_left (fun m y => if m <? y then y else m) r x)
  end.

(** [max(d, key=d.get)]: the keys of [d] are enumerated in insertion
    order and compared by their values. *)
Definition max_key_step (best : string * Z) (item : string * Z) : string * Z :=
  if snd best <? snd item then item else best.

Definition max_key (d : dict) : result string :=
  match d with
  | [] => Raise ValueError
  | kv :: r => Ok (fst (fold_left max_key_step r kv))
  end.

(** [enumerate(xs)] *)
Definition enumerate {A : Type} (xs : list A) : list (nat * A) :=
  combine (seq 0 (List.length xs)) xs.

(** [xs[i]] for a non-negative index. *)
Definition list_item {A : Type} (xs : list A) (i : nat) : result A :=
  match nth_error xs i with
  | Some x => Ok x
  | None => Raise IndexError
  end.

(** [np.argmax(xs)] with [xs[np.argmax(xs)]]: the first index holding
    the greatest entry; [ValueError] on an empty vector. *)
Fixpoint argmax_from (i : nat) (best : nat * Q) (xs : list Q) : nat * Q :=
  match xs with
  | [] => best
  | x :: r =>
      argmax_from (S i) (if Qle_bool x (snd best) then best else (i, x)) r
  end.

Definition argmax (xs : list Q) : result (nat * Q) :=
  match xs with
  | [] => Raise ValueError
  | x :: r => Ok (argmax_from 1 (0%nat, x) r)
  end.

End Py.

(** ** Images, boxes and labels: the data both programs work on *)

Module Img.

(** A pixel of three channels. *)
Definition px : Type := (Z * Z * Z)%type.

(** A decoded colour image, the array [cv2.imread] returns: [height] rows
    of [width] pixels. *)
Record ndarray : Type := {
  height : nat;
  width : nat;
  pixel : nat -> nat -> px
}.

(** [img.size] *)
Definition size (img : ndarray) : nat := (height img * width img * 3)%nat.

(** [img[r0:r1, c0:c1, :]] (and [img[r0:r1, c0:c1]], the same view). *)
Definition crop (img : ndarray) (r0 r1 c0 c1 : Z) : ndarray :=
  let h := Z.of_nat (height img) in
  let w := Z.of_nat (width img) in
  {| height := Py.slice_len h r0 r1;
     width := Py.slice_len w c0 c1;
     pixel := fun r c =>
       pixel img (Py.slice_start h r0 + r) (Py.slice_start w c0 + c) |}.

(** [cv2.cvtColor(img, cv2.COLOR_BGR2RGB)] *)
Definition cvtColor_BGR2RGB (img : ndarray) : ndarray :=
  {| height := height img;
     width := width img;
     pixel := fun r c => let '(b, g, r') := pixel img r c in (r', g, b) |}.

(** The rectangle of a detection, ["box"]: its coordinates as the
    programs read them, through [int(...)]. *)
Record box : Type := {
  xmin : Z;
  ymin : Z;
  xmax : Z;
  ymax : Z
}.

(** One entry of ["labels"].  [face] and [faceProba] are the two keys
    the programs write; [None] is an absent key. *)
Record label : Type := {
  name : string;
  bbox : box;
  face : option Py.value;
  faceProba : option Q
}.

(** [label['face'] = v] *)
Definition set_face (l : label) (v : Py.value) : label :=
  {| name := name l; bbox := bbox l; face := Some v; faceProba := faceProba l |}.

(** [label['faceProba'] = p] *)
Definition set_faceProba (l : label) (p : Q) : label :=
  {| name := name l; bbox := bbox l; face := face l; faceProba := Some p |}.

(** One element of the batch: [{"image": ..., "labels": [...]}]. *)
Record image_record : Type := {
  image : string;
  labels : list label
}.

End Img.

(** ** face_det_rec.py: face detection and recognition by embedding votes *)

Module FaceDetRec.
Import Py Img.

(** Face comparison tolerance (a lower value compares more strictly). *)
Definition COMPARE_FACES_TOLERANCE : Q := 57 # 100.

(** Factor to scale the image by when looking for faces. *)
Definition NUMBER_OF_TIMES_TO_UPSAMPLE : nat := 1.

(** Face detection model, ['cnn'] or ['hog']. *)
Definition FACE_DET_MODEL : string := "cnn".

(** How many times to re-sample when calculating a face encoding. *)
Definition NUM_JITTERS : nat := 100.

(** Threshold to declare a valid face: the fraction of all embeddings
    for a face name. *)
Definition NAME_THRESHOLD : Q := 20 # 100.

(** Images with a variance of Laplacian below this are declared blurry. *)
Definition FOCUS_MEASURE_THRESHOLD : Q := 1000 # 1.

(** A face location as [face_recognition] reports it:
    [(top, right, bottom, left)]. *)
Definition face_location : Type := (Z * Z * Z * Z)%type.

(** The pickled gallery [data]: [data['names']] and [data['encodings']]. *)
Record gallery (Enc : Type) : Type := {
  names : list string;
  encodings : list Enc
}.
Arguments names {Enc} g.
Arguments encodings {Enc} g.

Notation "'let*' x ':=' e 'in' k" := (rbind e (fun x => k))
  (at level 10, x name, e at level 100, k at level 200).

(** [x > y] on floats *)
Definition Qgt_bool (x y : Q) : bool := negb (Qle_bool x y).

(** [x < y] on floats *)
Definition Qlt_bool (x y : Q) : bool := negb (Qle_bool y x).

(** [all(bs)] *)
Definition all (bs : list bool) : bool := forallb (fun b => b) bs.

(** *** The body of the loop over the facial embeddings (lines 141-180) *)

Section Resolver.
Variable Enc : Type.
(** [face_recognition.face_distance], the Euclidean distance of dlib. *)
Variable face_distance : Enc -> Enc -> Q.

(** [face_recognition.compare_faces]: one boolean per known encoding,
    [face_distance(known, e) <= tolerance]. *)
Definition compare_faces (known : list Enc) (e : Enc) (tolerance : Q)
  : list bool :=
  map (fun k => Qle_bool (face_distance k e) tolerance) known.

(** [[i for (i, b) in enumerate(matches) if b]] *)
Definition matchedIdxs (matches : list bool) : list nat :=
  map fst (filter (fun ib => snd ib) (enumerate matches)).

(** The loop over the matched indexes (lines 161-163):
    [name = data['names'][i]; counts[name] = counts.get(name, 0) + 1]. *)
Fixpoint count_matched (nms : list string) (idxs : list nat) (counts : dict)
  : result dict :=
  match idxs with
  | [] => Ok counts
  | i :: r =>
      let* name := list_item nms i in
      count_matched nms r
        (dict_set counts name (dict_get_default counts name 0 + 1))
  end.

(** The comprehension of lines 173-174:
    [[max_value > value + NAME_THRESHOLD * name_count[max_name]
       for name, value in counts.items() if name != max_name]]. *)
Fixpoint name_thresholds (margin : Q) (name_count : dict)
    (max_name : string) (max_value : Z) (items : list (string * Z))
  : result (list bool) :=
  match items with
  | [] => Ok []
  | (name, value) :: r =>
      if negb (String.eqb name max_name) then
        let* nc := dict_item name_count max_name in
        let* rest := name_thresholds margin name_count max_name max_value r in
        Ok (Qgt_bool (inject_Z max_value)
                     (inject_Z value + margin * inject_Z nc) :: rest)
      else name_thresholds margin name_count max_name max_value r
  end.

(** Lines 147-180 for a given list [matches]: the value the variable
    [name] holds when the loop body ends.  (The assignments of lines
    147 and 162 are overwritten at 178 or 180 whenever a match exists.) *)
Definition decide (margin : Q) (nms : list string) (name_count : dict)
    (matches : list bool) : result value :=
  if existsb (fun b => b) matches then
    let* counts := count_matched nms (matchedIdxs matches) (dict_zero nms) in
    let* max_value := max_values (dict_values counts) in
    let* max_name := max_key counts in
    let* ths := name_thresholds margin name_count max_name max_value counts in
    Ok (if all ths then PyStr max_name else PyNone)
  else Ok (PyStr "Unknown").

(** One iteration of [for encoding in encodings] (lines 143-180). *)
Definition resolve (tolerance margin : Q) (data : gallery Enc)
    (name_count : dict) (encoding : Enc) : result value :=
  decide margin (names data) name_count
    (compare_faces (encodings data) encoding tolerance).

End Resolver.

(** *** The script

    Its module-level state: the variable [name], which the loops of
    lines 67, 141 and 161 and the branch of line 130 all assign and
    which line 183 reads, and a log of the calls made to
    [face_recognition.face_encodings]. *)
Record state : Type := {
  var_name : option value;
  face_encodings_calls : list (list face_location)
}.

Definition M (A : Type) : Type := state -> result A * state.

Definition ret {A : Type} (a : A) : M A := fun s => (Ok a, s).

Definition raise {A : Type} (e : exn) : M A := fun s => (Raise e, s).

Definition bind {A B : Type} (m : M A) (k : A -> M B) : M B :=
  fun s =>
    match m s with
    | (Ok a, s') => k a s'
    | (Raise e, s') => (Raise e, s')
    end.

Definition lift {A : Type} (r : result A) : M A := fun s => (r, s).

Notation "x <- m ;; k" := (bind m (fun x => k))
  (at level 61, m at next level, right associativity).
Notation "m ;; k" := (bind m (fun _ => k))
  (at level 61, right associativity).

(** [name = v] *)
Definition assign_name (v : value) : M unit :=
  fun s =>
    (Ok tt, {| var_name := Some v;
               face_encodings_calls := face_encodings_calls s |}).

(** Reading [name]: [NameError] while it is unbound. *)
Definition read_name : M value :=
  fun s =>
    match var_name s with
    | Some v => (Ok v, s)
    | None => (Raise NameError, s)
    end.

Section Script.
Variable Enc : Type.
Variable Gray : Type.
Variable face_distance : Enc -> Enc -> Q.
(** [cv2.imread]: [None] when the file cannot be read. *)
Variable imread : string -> option ndarray.
(** [face_recognition.face_locations(img, upsample, model)] *)
Variable face_locations : ndarray -> nat -> string -> list face_location.
(** [face_recognition.face_encodings(img, locations, num_jitters)] *)
Variable face_encodings : ndarray -> list face_location -> nat -> list Enc.
(** [cv2.cvtColor(img, cv2.COLOR_BGR2GRAY)] *)
Variable cvtColor_BGR2GRAY : ndarray -> Gray.
(** [cv2.Laplacian(image, cv2.CV_64F).var()] *)
Variable Laplacian_var : Gray -> Q.
(** The unpickled gallery. *)
Variable data : gallery Enc.

(** The focus measure: the variance of the Laplacian. *)
Definition variance_of_laplacian (image : Gray) : Q := Laplacian_var image.

Definition call_face_encodings (rgb : ndarray) (box : list face_location)
  : M (list Enc) :=
  fun s =>
    (Ok (face_encodings rgb box NUM_JITTERS),
     {| var_name := var_name s;
        face_encodings_calls := face_encodings_calls s ++ [box] |}).

(** Lines 66-68: [name_count = {n: 0 for n in data['names']}], then
    [for name in data['names']: name_count[name] += 1]. *)
Fixpoint count_names (nms : list string) (name_count : dict) : M dict :=
  match nms with
  | [] => ret name_count
  | n :: r =>
      assign_name (PyStr n) ;;
      v <- lift (dict_item name_count n) ;;
      count_names r (dict_set name_count n (v + 1))
  end.

(** Lines 141-180: [for encoding in encodings: ...]. *)
Fixpoint for_encodings (name_count : dict) (encs : list Enc) : M unit :=
  match encs with
  | [] => ret tt
  | encoding :: r =>
      v <- lift (resolve Enc face_distance COMPARE_FACES_TOLERANCE
                   NAME_THRESHOLD data name_count encoding) ;;
      assign_name v ;;
      for_encodings name_count r
  end.

(** Lines 88-183: the body of [for label in json_obj['labels']]. *)
Definition process_label (name_count : dict) (img : ndarray) (label : label)
  : M Img.label :=
  if String.eqb (name label) "person" then
    let y2 := ymin (bbox label) in
    let x1 := xmin (bbox label) in
    let y1 := ymax (bbox label) in
    let x2 := xmax (bbox label) in
    let roi := crop img y2 y1 x1 x2 in
    if (size roi =? 0)%nat then ret (set_face label PyNone)
    else
      let rgb := cvtColor_BGR2RGB roi in
      let box := face_locations rgb NUMBER_OF_TIMES_TO_UPSAMPLE FACE_DET_MODEL in
      match box with
      | [] => ret (set_face label PyNone)
      | (face_top, face_right, face_bottom, face_left) :: _ =>
          let face_roi := crop roi face_top face_bottom face_left face_right in
          let gray := cvtColor_BGR2GRAY face_roi in
          let fm := variance_of_laplacian gray in
          (if Qlt_bool fm FOCUS_MEASURE_THRESHOLD then assign_name PyNone
           else
             encs <- call_face_encodings rgb box ;;
             for_encodings name_count encs) ;;
          v <- read_name ;;
          ret (set_face label v)
      end
  else ret label.

Fixpoint for_labels (name_count : dict) (img : ndarray) (ls : list label)
  : M (list label) :=
  match ls with
  | [] => ret []
  | l :: r =>
      l' <- process_label name_count img l ;;
      r' <- for_labels name_count img r ;;
      ret (l' :: r')
  end.

(** Lines 83-186: the body of [for obj in objects_detected].
    [img.shape] raises [AttributeError] when [img] is [None]. *)
Definition process_image (name_count : dict) (json_obj : image_record)
  : M image_record :=
  match imread (image json_obj) with
  | None => raise AttributeError
  | Some img =>
      ls <- for_labels name_count img (labels json_obj) ;;
      ret {| image := image json_obj; labels := ls |}
  end.

Fixpoint for_images (name_count : dict) (objs : list image_record)
  : M (list image_record) :=
  match objs with
  | [] => ret []
  | obj :: r =>
      obj' <- process_image name_count obj ;;
      r' <- for_images name_count r ;;
      ret (obj' :: r')
  end.

Definition initial_state : state :=
  {| var_name := None; face_encodings_calls := [] |}.

(** The whole script on the parsed command-line arguments [argv[1:]];
    the result is the list that line 189 prints. *)
Definition main (objects_detected : list image_record)
  : result (list image_record) * state :=
  match objects_detected with
  | [] => raise SystemExit initial_state
  | _ =>
      (name_count <- count_names (names data) (dict_zero (names data)) ;;
       for_images name_count objects_detected) initial_state
  end.

End Script.

End FaceDetRec.

(** ** person_classifier_server.py: person classification served by zerorpc *)

Module PersonClassifier.
Import Py Img.

Notation "'let*' x ':=' e 'in' k" := (rbind e (fun x => k))
  (at level 10, x name, e at level 100, k at level 200).

(** The supported model architectures ([MODEL_ARCH], asserted at start-up
    to be one of the two). *)
Inductive arch : Type :=
| VGG16
| InceptionResNetV2.

Definition input_size (a : arch) : nat * nat :=
  match a with
  | VGG16 => (224%nat, 224%nat)
  | InceptionResNetV2 => (299%nat, 299%nat)
  end.

Section Server.
(** What the network is fed. *)
Variable Tensor : Type.
(** [config['minProba']]: the minimum score for a valid classification. *)
Variable MIN_PROBA : Q.
(** [config['labelMap']]: the names of the classes, by class index. *)
Variable LABEL_MAP : list string.
(** [config['modelArch']] *)
Variable MODEL_ARCH : arch.
(** [cv2.imread]: [None] when the file cannot be read. *)
Variable imread : string -> option ndarray.
(** [cv2.resize(roi, dsize=..., interpolation=cv2.INTER_AREA)] *)
Variable resize : ndarray -> nat * nat -> ndarray.
(** [preprocessor(np.expand_dims(roi, axis=0).astype('float32'))], with
    the preprocessor of the architecture. *)
Variable preprocessor : arch -> ndarray -> Tensor.
(** [self.sess.run(output_tensor, {input_tensor: roi})[0]]: the
    predictions per class. *)
Variable sess_run : Tensor -> list Q.

(** Lines 93-154: the body of [for label in obj['labels']]. *)
Definition classify_label (obj : image_record) (label : label)
  : result Img.label :=
  if String.eqb (name label) "person" then
    match imread (image obj) with
    | None => Ok (set_face label PyNone)
    | Some img =>
        let y2 := ymin (bbox label) in
        let x1 := xmin (bbox label) in
        let y1 := ymax (bbox label) in
        let x2 := xmax (bbox label) in
        let roi := crop img y2 y1 x1 x2 in
        if (size roi =? 0)%nat then Ok (set_face label PyNone)
        else
          let roi := resize roi (input_size MODEL_ARCH) in
          let roi := preprocessor MODEL_ARCH roi in
          let predictions := sess_run roi in
          let* jp := argmax predictions in
          let j := fst jp in
          let proba := snd jp in
          let* person := list_item LABEL_MAP j in
          let name := if Qle_bool MIN_PROBA proba then PyStr person else PyNone in
          Ok (set_faceProba (set_face label name) proba)
    end
  else Ok label.

Fixpoint for_labels (obj : image_record) (ls : list label)
  : result (list label) :=
  match ls with
  | [] => Ok []
  | l :: r =>
      let* l' := classify_label obj l in
      let* r' := for_labels obj r in
      Ok (l' :: r')
  end.

(** Lines 88-160: [DetectRPC.detect_faces]; the result is the list that
    [json.dumps] serialises. *)
Fixpoint detect_faces (test_image_paths : list image_record)
  : result (list image_record) :=
  match test_image_paths with
  | [] => Ok []
  | obj :: r =>
      let* ls := for_labels obj (labels obj) in
      let* r' := detect_faces r in
      Ok ({| image := image obj; labels := ls |} :: r')
  end.

End Server.

End PersonClassifier.

(** ** Specification-level notions for the vote

    These do not come from the code: they say, without indices and
    without dictionaries, what the tallies of the script count. *)

Module VoteSpec.
Import Py.

(** The gallery names of the entries the face matched, in gallery order. *)
Definition matched_names (nms : list string) (matches : list bool)
  : list string :=
  map snd (filter (fun bn => fst bn) (combine matches nms)).

(** The number of matched gallery entries that bear the label [L]. *)
Definition votes (nms : list string) (matches : list bool) (L : string) : Z :=
  Z.of_nat (count_occ string_dec (matched_names nms matches) L).

(** The number of gallery entries that bear the label [L]. *)
Definition population (nms : list string) (L : string) : Z :=
  Z.of_nat (count_occ string_dec nms L).

(** [w] is the label with the most votes, the first such label in the
    order in which the labels first appear in the gallery. *)
Definition is_winner (nms : list string) (matches : list bool) (w : string)
  : Prop :=
  exists pre post,
    nms = pre ++ w :: post /\
    ~ In w pre /\
    (forall L, In L pre -> votes nms matches L < votes nms matches w) /\
    (forall L, In L post -> votes nms matches L <= votes nms matches w).

(** The acceptance test of the script: the winner's votes exceed those
    of every other gallery label by more than [margin] times the
    winner's own population. *)
Definition margin_ok (margin : Q) (nms : list string) (matches : list bool)
    (w : string) : Prop :=
  forall L, In L nms -> L <> w ->
    (inject_Z (votes nms matches L) + margin * inject_Z (population nms w)
     < inject_Z (votes nms matches w))%Q.

(** The acceptance test in the words of the specification: the margin is
    scaled by the population of the competing label [L]. *)
Definition margin_ok_competitor (margin : Q) (nms : list string)
    (matches : list bool) (w : string) : Prop :=
  forall L, In L nms -> L <> w ->
    (inject_Z (votes nms matches L) + margin * inject_Z (population nms L)
     < inject_Z (votes nms matches w))%Q.

(** The update [d[n] = d.get(n, 0) + 1], which both tallies of the script
    perform (in line 68 as [d[n] += 1] on a key that is present). *)
Definition bump (d : dict) (n : string) : dict :=
  dict_set d n (dict_get_default d n 0 + 1).

End VoteSpec.

(** ** Notions for stating what the script does to one box *)

Module ScriptSpec.
Import Py Img FaceDetRec.

(** The person region of a label: [img[ymin:ymax, xmin:xmax]]. *)
Definition roi_of (img : ndarray) (l : label) : ndarray :=
  crop img (ymin (bbox l)) (ymax (bbox l)) (xmin (bbox l)) (xmax (bbox l)).

(** The focus measure of the crop of one face location in a region. *)
Definition focus_of (Gray : Type) (cvtColor_BGR2GRAY : ndarray -> Gray)
    (Laplacian_var : Gray -> Q) (roi : ndarray) (loc : face_location) : Q :=
  let '(face_top, face_right, face_bottom, face_left) := loc in
  variance_of_laplacian Gray Laplacian_var
    (cvtColor_BGR2GRAY (crop roi face_top face_bottom face_left face_right)).

(** The state after [name = v]. *)
Definition named (v : value) (s : state) : state :=
  {| var_name := Some v; face_encodings_calls := face_encodings_calls s |}.

(** The state after a call of [face_encodings] on the locations [box]. *)
Definition logged (box : list face_location) (s : state) : state :=
  {| var_name := var_name s;
     face_encodings_calls := face_encodings_calls s ++ [box] |}.

(** A box lies entirely outside an image of [w] columns and [h] rows. *)
Definition outside (w h : Z) (b : box) : Prop :=
  xmax b <= 0 \/ ymax b <= 0 \/ w <= xmin b \/ h <= ymin b.

(** A box is degenerate. *)
Definition degenerate (b : box) : Prop :=
  xmin b = xmax b \/ ymin b = ymax b.

End ScriptSpec.

(** ** Concrete galleries, images and collaborators

    Small inputs on which the definitions above are run: embeddings of
    one dimension with the distance [|a - b|], a probe face at [0], and
    gallery entries at [1/2] (within the tolerance 0.57) or at [1]
    (outside it). *)

Module Examples.
Import Py Img FaceDetRec.

Definition dist (a b : Q) : Q := Qabs (a - b).

Definition probe : Q := 0.
Definition near : Q := 1 # 2.
Definition far : Q := 1.

(** Ten embeddings of Alice and two of Bob; the probe matches six of
    Alice's and one of Bob's. *)
Definition gallery_A : gallery Q :=
  {| names := repeat "Alice"%string 10 ++ repeat "Bob"%string 2;
     encodings := repeat near 6 ++ repeat far 4 ++ [near; far] |}.

(** Five embeddings each of Alice and Bob; the probe matches three of
    each. *)
Definition gallery_B : gallery Q :=
  {| names := repeat "Alice"%string 5 ++ repeat "Bob"%string 5;
     encodings := repeat near 3 ++ repeat far 2 ++ repeat near 3 ++ repeat far 2 |}.

(** Ten embeddings of Alice and two of Bob; the probe matches three of
    Alice's and one of Bob's. *)
Definition gallery_C : gallery Q :=
  {| names := repeat "Alice"%string 10 ++ repeat "Bob"%string 2;
     encodings := repeat near 3 ++ repeat far 7 ++ [near; far] |}.

(** Two embeddings, one per person, none near the probe. *)
Definition gallery_D : gallery Q :=
  {| names := ["Alice"%string; "Bob"%string];
     encodings := [far; far] |}.

Definition name_count_10_2 : dict := [("Alice"%string, 10); ("Bob"%string, 2)].
Definition name_count_5_5 : dict := [("Alice"%string, 5); ("Bob"%string, 5)].
Definition name_count_1_1 : dict := [("Alice"%string, 1); ("Bob"%string, 1)].

(** A black image of 100 rows and 100 columns. *)
Definition img100 : ndarray :=
  {| height := 100; width := 100; pixel := fun _ _ => (0, 0, 0) |}.

Definition imread_ok (path : string) : option ndarray := Some img100.
Definition imread_bad (path : string) : option ndarray := None.

(** A face detector that finds one face, or two, in every region. *)
Definition one_face (rgb : ndarray) (upsample : nat) (model : string)
  : list face_location := [(0, 10, 10, 0)].
Definition two_faces (rgb : ndarray) (upsample : nat) (model : string)
  : list face_location := [(0, 10, 10, 0); (20, 30, 30, 20)].

(** Grayscale crops are summarised by their number of rows. *)
Definition to_gray (img : ndarray) : nat := height img.
Definition sharp (g : nat) : Q := 2000 # 1.
Definition at_floor (g : nat) : Q := 1000 # 1.
Definition blurry (g : nat) : Q := 800 # 1.

(** Embedding extractors: one embedding at the probe per face, two
    embeddings (the second away from every gallery entry), or none. *)
Definition encode_each (rgb : ndarray) (locs : list face_location)
    (jitters : nat) : list Q := map (fun _ => probe) locs.
Definition encode_two (rgb : ndarray) (locs : list face_location)
    (jitters : nat) : list Q := [probe; 5 # 1].
Definition encode_none (rgb : ndarray) (locs : list face_location)
    (jitters : nat) : list Q := [].

(** An extractor that returns an embedding for regions of at least 30
    rows only. *)
Definition encode_if_tall (rgb : ndarray) (locs : list face_location)
    (jitters : nat) : list Q :=
  if (height rgb <? 30)%nat then [] else [probe].

(** A file system on which ["bad.jpg"] cannot be read. *)
Definition imread_one_bad (path : string) : option ndarray :=
  if String.eqb path "bad.jpg" then None else Some img100.

Definition person_box (x0 y0 x1 y1 : Z) : label :=
  {| name := "person"; bbox := {| xmin := x0; ymin := y0; xmax := x1; ymax := y1 |};
     face := None; faceProba := None |}.

Definition car_box : label :=
  {| name := "car"; bbox := {| xmin := 0; ymin := 0; xmax := 50; ymax := 50 |};
     face := None; faceProba := None |}.

(** A classifier over two classes that is sure, or unsure, of class 0. *)
Definition label_map : list string := ["alice"%string; "bob"%string].
Definition resize_id (roi : ndarray) (dsize : nat * nat) : ndarray := roi.
Definition prep (a : PersonClassifier.arch) (roi : ndarray) : nat := height roi.
Definition sure (t : nat) : list Q := [9 # 10; 1 # 10].
Definition unsure (t : nat) : list Q := [42 # 100; 40 # 100].

(** Membership in a concrete list, one element at a time. *)
Ltac each_member H :=
  simpl in H;
  repeat (destruct H as [H|H]; [subst|]);
  try contradiction.

End Examples.

(** ** Notions for stating what the programs do to a batch *)

Module BatchSpec.
Import Py Img FaceDetRec.

(** The values the script can write as [face]: [None], ['Unknown'], or
    a name of the gallery. *)
Definition face_domain (nms : list string) (v : value) : Prop :=
  v = PyNone \/ v = PyStr "Unknown" \/ exists n, In n nms /\ v = PyStr n.

(** The variable [name], when bound, holds a value of the domain. *)
Definition name_in_domain (nms : list string) (s : state) : Prop :=
  forall v, var_name s = Some v -> face_domain nms v.

(** Two runs of the loop over the embeddings end alike: both return with
    the same value in [name], or both raise the same exception. *)
Definition same_end (r1 r2 : result unit * state) : Prop :=
  match r1, r2 with
  | (Ok _, t1), (Ok _, t2) => var_name t1 = var_name t2
  | (Raise e1, _), (Raise e2, _) => e1 = e2
  | _, _ => False
  end.

(** [label['name'] == 'person'] *)
Definition is_person (l : label) : bool := String.eqb (name l) "person".

(** What the script may do to one label: nothing to a label that is not
    a person; to a person, set [face] to a value of the domain and leave
    the rest alone. *)
Definition label_annotated (nms : list string) (l l' : label) : Prop :=
  if is_person l
  then exists v, l' = set_face l v /\ face_domain nms v
  else l' = l.

Definition record_annotated (nms : list string) (o o' : image_record) : Prop :=
  image o' = image o /\ Forall2 (label_annotated nms) (labels o) (labels o').

(** What the server may do to one label: nothing to a label that is not
    a person; to a person, either set [face = None] alone, or set [face]
    and [faceProba] together: an entry of the label map with a
    probability of at least [min_proba], or [None] with a smaller one. *)
Definition label_classified (min_proba : Q) (label_map : list string)
    (l l' : label) : Prop :=
  if is_person l
  then l' = set_face l PyNone \/
       exists p,
         (l' = set_faceProba (set_face l PyNone) p /\ (p < min_proba)%Q) \/
         (exists n, In n label_map /\
                    l' = set_faceProba (set_face l (PyStr n)) p /\
                    (min_proba <= p)%Q)
  else l' = l.

Definition record_classified (min_proba : Q) (label_map : list string)
    (o o' : image_record) : Prop :=
  image o' = image o /\
  Forall2 (label_classified min_proba label_map) (labels o) (labels o').

(** The number of person boxes of a batch. *)
Definition person_boxes (objs : list image_record) : nat :=
  list_sum (map (fun o => List.length (filter is_person (labels o))) objs).

(** [sum(d.values())] *)
Definition sum_values (d : dict) : Z := fold_right Z.add 0 (dict_values d).

Section Decision.
Variable Enc : Type.
Variable Gray : Type.
Variable face_distance : Enc -> Enc -> Q.
Variable face_locations : ndarray -> nat -> string -> list face_location.
Variable face_encodings : ndarray -> list face_location -> nat -> list Enc.
Variable cvtColor_BGR2GRAY : ndarray -> Gray.
Variable Laplacian_var : Gray -> Q.
Variable data : gallery Enc.

(** Lines 95-180 of the script without the writes to the label: the
    value that [process_label] writes as [face] of a person box [b]. *)
Definition box_decision (name_count : dict) (img : ndarray) (b : box) : M value :=
  let roi := crop img (ymin b) (ymax b) (xmin b) (xmax b) in
  if (size roi =? 0)%nat then ret PyNone
  else
    let rgb := cvtColor_BGR2RGB roi in
    let box := face_locations rgb NUMBER_OF_TIMES_TO_UPSAMPLE FACE_DET_MODEL in
    match box with
    | [] => ret PyNone
    | (face_top, face_right, face_bottom, face_left) :: _ =>
        let face_roi := crop roi face_top face_bottom face_left face_right in
        let gray := cvtColor_BGR2GRAY face_roi in
        let fm := variance_of_laplacian Gray Laplacian_var gray in
        (if Qlt_bool fm FOCUS_MEASURE_THRESHOLD then assign_name PyNone
         else
           encs <- call_face_encodings Enc face_encodings rgb box ;;
           for_encodings Enc face_distance data name_count encs) ;;
        read_name
    end.

End Decision.

End BatchSpec.

(** ** More concrete galleries *)

Module MoreExamples.
Import Py Img FaceDetRec Examples.

(** One name for two encodings: the second encoding has no name. *)
Definition gallery_short : gallery Q :=
  {| names := ["Alice"%string]; encodings := [far; near] |}.

(** Three embeddings of one person. *)
Definition gallery_single : gallery Q :=
  {| names := repeat "Alice"%string 3; encodings := [near; far; near] |}.

(** [gallery_A] with the entries of Bob stored first. *)
Definition gallery_A_rev : gallery Q :=
  {| names := repeat "Bob"%string 2 ++ repeat "Alice"%string 10;
     encodings := [near; far] ++ repeat near 6 ++ repeat far 4 |}.

Definition name_count_1 : dict := [("Alice"%string, 1)].
Definition name_count_3 : dict := [("Alice"%string, 3)].
Definition name_count_2_10 : dict := [("Bob"%string, 2); ("Alice"%string, 10)].

(** A classifier whose prediction vector is empty, and one with more
    classes than the label map names. *)
Definition no_classes (t : nat) : list Q := [].
Definition three_classes (t : nat) : list Q := [1 # 10; 2 # 10; 7 # 10].

Definition batch_ok : list image_record :=
  [{| image := "a.jpg"; labels := [person_box 0 0 50 50; car_box] |};
   {| image := "b.jpg"; labels := [person_box 0 0 20 20] |}].

Definition batch_bad : list image_record :=
  [{| image := "a.jpg"; labels := [person_box 0 0 50 50] |};
   {| image := "bad.jpg"; labels := [person_box 0 0 50 50] |}].

End MoreExamples.

(** ** Facts about the Python primitives *)

Module PyFacts.
Import Py.

Lemma dict_get_set_eq (d : dict) (k : string) (v : Z) :
  dict_get (dict_set d k v) k = Some v.
Proof.
  induction d as [|[k' v'] r IH]; simpl.
  - now rewrite String.eqb_refl.
  - destruct (String.eqb k' k) eqn:E; simpl; rewrite E; auto.
Qed.

Lemma dict_get_set_neq (d : dict) (k k' : string) (v : Z) :
  k <> k' -> dict_get (dict_set d k v) k' = dict_get d k'.
Proof.
  intros Hne. induction d as [|[k0 v0] r IH]; simpl.
  - destruct (String.eqb_spec k k'); [contradiction | reflexivity].
  - destruct (String.eqb_spec k0 k) as [->|Hk]; simpl.
    + destruct (String.eqb_spec k k'); [contradiction | reflexivity].
    + destruct (String.eqb_spec k0 k'); auto.
Qed.

Lemma dict_get_keys (d : dict) (k : string) :
  In k (dict_keys d) <-> exists v, dict_get d k = Some v.
Proof.
  induction d as [|[k0 v0] r IH]; simpl.
  - split; [tauto | intros [v Hv]; discriminate].
  - destruct (String.eqb_spec k0 k) as [->|Hk].
    + split; eauto.
    + rewrite IH. split; [intros [?|?]; [contradiction | auto] | auto].
Qed.

Lemma dict_get_none (d : dict) (k : string) :
  ~ In k (dict_keys d) -> dict_get d k = None.
Proof.
  intros Hn. destruct (dict_get d k) eqn:E; auto.
  exfalso. apply Hn. apply dict_get_keys. eauto.
Qed.

Lemma dict_keys_set_in (d : dict) (k : string) (v : Z) :
  In k (dict_keys d) -> dict_keys (dict_set d k v) = dict_keys d.
Proof.
  induction d as [|[k0 v0] r IH]; simpl; [tauto|].
  intros H. destruct (String.eqb_spec k0 k) as [->|Hk]; simpl; auto.
  f_equal. apply IH. destruct H; [contradiction | assumption].
Qed.

Lemma dict_keys_set_notin (d : dict) (k : string) (v : Z) :
  ~ In k (dict_keys d) -> dict_keys (dict_set d k v) = dict_keys d ++ [k].
Proof.
  induction d as [|[k0 v0] r IH]; simpl; auto.
  intros H. destruct (String.eqb_spec k0 k) as [->|Hk]; simpl.
  - exfalso; auto.
  - f_equal. apply IH. tauto.
Qed.

Lemma dict_get_In (d : dict) (k : string) (v : Z) :
  NoDup (dict_keys d) -> In (k, v) d <-> dict_get d k = Some v.
Proof.
  induction d as [|[k0 v0] r IH]; simpl; intros Hnd.
  - split; [tauto | discriminate].
  - inversion Hnd as [|? ? Hnotin Hnd']; subst.
    destruct (String.eqb_spec k0 k) as [->|Hk].
    + split.
      * intros [H|H]; [congruence|].
        exfalso. apply Hnotin. change k with (fst (k, v)).
        unfold dict_keys. now apply in_map.
      * intros H; left; congruence.
    + rewrite <- IH by assumption.
      split; [intros [H|H]; [congruence | assumption] | auto].
Qed.

Lemma dict_set_NoDup (d : dict) (k : string) (v : Z) :
  NoDup (dict_keys d) -> NoDup (dict_keys (dict_set d k v)).
Proof.
  intros Hnd. destruct (in_dec string_dec k (dict_keys d)) as [Hin|Hnin].
  - now rewrite dict_keys_set_in.
  - rewrite dict_keys_set_notin by assumption.
    apply NoDup_app; auto.
    + constructor; [simpl; tauto | constructor].
    + intros x Hx [<-|[]]. contradiction.
Qed.

(** The dictionary [{n: 0 for n in ns}], built on top of [d]. *)
Lemma zero_fold_get (ns : list string) (d : dict) (k : string) :
  dict_get (fold_left (fun d n => dict_set d n 0) ns d) k =
  if in_dec string_dec k ns then Some 0 else dict_get d k.
Proof.
  revert d. induction ns as [|n r IH]; intros d; simpl; auto.
  rewrite IH. destruct (in_dec string_dec k r) as [Hin|Hnin].
  - destruct (string_dec n k); reflexivity.
  - destruct (string_dec n k) as [->|Hne].
    + apply dict_get_set_eq.
    + now apply dict_get_set_neq.
Qed.

Lemma zero_fold_NoDup (ns : list string) (d : dict) :
  NoDup (dict_keys d) ->
  NoDup (dict_keys (fold_left (fun d n => dict_set d n 0) ns d)).
Proof.
  revert d. induction ns as [|n r IH]; intros d Hd; simpl; auto.
  apply IH. now apply dict_set_NoDup.
Qed.

Lemma dict_zero_get (ns : list string) (k : string) :
  In k ns -> dict_get (dict_zero ns) k = Some 0.
Proof.
  intros H. unfold dict_zero. rewrite zero_fold_get.
  destruct (in_dec string_dec k ns); [reflexivity | contradiction].
Qed.

Lemma dict_zero_keys (ns : list string) (k : string) :
  In k (dict_keys (dict_zero ns)) <-> In k ns.
Proof.
  rewrite dict_get_keys. unfold dict_zero. rewrite zero_fold_get.
  destruct (in_dec string_dec k ns); simpl.
  - split; eauto.
  - split; [intros [v Hv]; discriminate | tauto].
Qed.

Lemma dict_zero_NoDup (ns : list string) : NoDup (dict_keys (dict_zero ns)).
Proof. apply zero_fold_NoDup. constructor. Qed.

(** *** [max] *)

Lemma max_values_spec (xs : list Z) :
  xs <> [] ->
  exists m, max_values xs = Ok m /\ In m xs /\ forall x, In x xs -> x <= m.
Proof.
  destruct xs as [|x r]; [congruence | intros _].
  simpl. eexists; split; [reflexivity|].
  revert x. induction r as [|y r IH]; intros x; simpl.
  - split; [auto | intros z [<-|[]]; lia].
  - destruct (Z.ltb_spec x y) as [Hlt|Hge].
    + destruct (IH y) as [Hin Hub]. split.
      * destruct Hin as [<-|Hin]; auto.
      * intros z [<-|[<-|Hz]]; [specialize (Hub y (or_introl eq_refl)); lia | | ];
          apply Hub; simpl; auto.
    + destruct (IH x) as [Hin Hub]. split.
      * destruct Hin as [<-|Hin]; auto.
      * intros z [<-|[<-|Hz]]; [| specialize (Hub x (or_introl eq_refl)); lia | ];
          apply Hub; simpl; auto.
Qed.

(** The running maximum of [max(d, key=d.get)]: either the start value
    survives, or the result sits in the rest, strictly above all that
    precedes it. *)
Lemma max_key_fold (r : dict) (acc : string * Z) :
  let best := fold_left max_key_step r acc in
  (best = acc /\ forall x, In x r -> snd x <= snd acc) \/
  (exists pre post,
      r = pre ++ best :: post /\ snd acc < snd best /\
      (forall x, In x pre -> snd x < snd best) /\
      (forall x, In x post -> snd x <= snd best)).
Proof.
  revert acc. induction r as [|x r IH]; intros acc; simpl.
  - left. split; [reflexivity | intros x []].
  - destruct (Z.ltb_spec (snd acc) (snd x)) as [Hlt|Hge].
    + assert (Hs : max_key_step acc x = x).
      { unfold max_key_step. apply Z.ltb_lt in Hlt. now rewrite Hlt. }
      rewrite Hs. right.
      destruct (IH x) as [[Hb Hub]|(pre & post & Hr & Hx & Hpre & Hpost)].
      * exists [], r. simpl in *. rewrite Hb. repeat split; auto.
        intros y [].
      * exists (x :: pre), post. simpl in *. rewrite Hr at 1.
        repeat split; auto; [lia|]. intros y [<-|Hy]; auto.
    + assert (Hs : max_key_step acc x = acc).
      { unfold max_key_step. apply Z.ltb_ge in Hge. now rewrite Hge. }
      rewrite Hs.
      destruct (IH acc) as [[Hb Hub]|(pre & post & Hr & Hx & Hpre & Hpost)].
      * left. split; auto. intros y [<-|Hy]; auto.
      * right. exists (x :: pre), post. simpl in *. rewrite Hr at 1.
        repeat split; auto. intros y [<-|Hy]; auto. lia.
Qed.

Lemma max_key_spec (d : dict) :
  d <> [] ->
  exists k v pre post,
    max_key d = Ok k /\ d = pre ++ (k, v) :: post /\
    (forall x, In x pre -> snd x < v) /\
    (forall x, In x post -> snd x <= v).
Proof.
  destruct d as [|kv r]; [congruence | intros _]. simpl.
  pose proof (max_key_fold r kv) as H. simpl in H.
  destruct (fold_left max_key_step r kv) as [k v] eqn:E.
  destruct H as [[Hb Hub]|(pre & post & Hr & Hx & Hpre & Hpost)].
  - exists k, v, [], r. subst kv. simpl. repeat split; auto. intros x [].
  - exists k, v, (kv :: pre), post. simpl in *. rewrite Hr.
    repeat split; auto. intros x [<-|Hy]; auto.
Qed.

(** [max(d.values())] is the value of the key [max(d, key=d.get)]. *)
Lemma max_values_max_key (d : dict) (k : string) (v : Z) (pre post : dict) :
  d = pre ++ (k, v) :: post ->
  (forall x, In x pre -> snd x < v) ->
  (forall x, In x post -> snd x <= v) ->
  max_values (dict_values d) = Ok v.
Proof.
  intros Hd Hpre Hpost.
  destruct (max_values_spec (dict_values d)) as (m & Hm & Hin & Hub).
  { subst d. unfold dict_values. rewrite map_app. simpl.
    intros H. now apply app_eq_nil in H as [_ H]. }
  rewrite Hm. f_equal.
  assert (Hv : v <= m).
  { apply Hub. subst d. unfold dict_values. rewrite map_app. simpl.
    apply in_or_app. right. now left. }
  assert (Hmv : m <= v).
  { unfold dict_values in Hin. apply in_map_iff in Hin as ([k' v'] & <- & Hin).
    subst d. apply in_app_or in Hin as [Hin|[Hin|Hin]].
    - specialize (Hpre _ Hin). simpl in *. lia.
    - inversion Hin. simpl. lia.
    - apply (Hpost _ Hin). }
  lia.
Qed.

(** A list without duplicates splits around an element in one way only. *)
Lemma NoDup_split_unique {A : Type} (x : A) (l1 l2 r1 r2 : list A) :
  NoDup (l1 ++ x :: r1) -> l1 ++ x :: r1 = l2 ++ x :: r2 -> l1 = l2.
Proof.
  revert l2. induction l1 as [|a l1 IH]; intros l2 Hnd Heq.
  - destruct l2 as [|b l2]; auto. simpl in *. inversion Heq; subst.
    inversion Hnd as [|? ? Hn _]; subst. exfalso. apply Hn.
    apply in_or_app. right. now left.
  - destruct l2 as [|b l2]; simpl in *.
    + inversion Heq; subst. inversion Hnd as [|? ? Hn _]; subst.
      exfalso. apply Hn. apply in_or_app. right. now left.
    + inversion Heq; subst. f_equal. inversion Hnd; subst. eapply IH; eauto.
Qed.

(** Every element of a list has a first occurrence. *)
Lemma in_split_first (x : string) (l : list string) :
  In x l -> exists pre post, l = pre ++ x :: post /\ ~ In x pre.
Proof.
  induction l as [|a l IH]; simpl; [tauto|]. intros H.
  destruct (string_dec a x) as [->|Hne].
  - exists [], l. split; auto.
  - destruct H as [H|H]; [contradiction|].
    destruct (IH H) as (pre & post & -> & Hn).
    exists (a :: pre), post. split; auto. simpl. tauto.
Qed.

Lemma zero_fold_keys_ext (ns : list string) (d : dict) :
  exists ext,
    dict_keys (fold_left (fun d n => dict_set d n 0) ns d) = dict_keys d ++ ext.
Proof.
  revert d. induction ns as [|n r IH]; intros d; simpl.
  - exists []. now rewrite app_nil_r.
  - destruct (IH (dict_set d n 0)) as [ext Hext]. rewrite Hext.
    destruct (in_dec string_dec n (dict_keys d)) as [Hin|Hnin].
    + rewrite dict_keys_set_in by assumption. eauto.
    + rewrite dict_keys_set_notin by assumption. rewrite <- app_assoc. eauto.
Qed.

(** The keys of [{n: 0 for n in ns}] come in the order in which the
    names first appear in [ns]. *)
Lemma dict_zero_keys_order (pre post : list string) (w : string) :
  ~ In w pre ->
  exists ext,
    dict_keys (dict_zero (pre ++ w :: post)) =
    dict_keys (dict_zero pre) ++ w :: ext.
Proof.
  intros Hn. unfold dict_zero. rewrite fold_left_app. simpl.
  fold (dict_zero pre).
  destruct (zero_fold_keys_ext post (dict_set (dict_zero pre) w 0)) as [ext ->].
  rewrite dict_keys_set_notin.
  - rewrite <- app_assoc. simpl. eauto.
  - now rewrite dict_zero_keys.
Qed.

End PyFacts.

(** ** Facts about the tallies of face_det_rec.py *)

Module VoteFacts.
Import Py Img FaceDetRec VoteSpec PyFacts.

Lemma bump_fold_get (ns : list string) (d : dict) (k : string) :
  dict_get (fold_left bump ns d) k =
  match count_occ string_dec ns k with
  | O => dict_get d k
  | S c => Some (dict_get_default d k 0 + Z.of_nat (S c))
  end.
Proof.
  revert d. induction ns as [|n r IH]; intros d; [reflexivity|].
  cbn [fold_left count_occ]. rewrite IH.
  destruct (string_dec n k) as [->|Hne].
  - unfold bump, dict_get_default. rewrite dict_get_set_eq.
    destruct (count_occ string_dec r k); f_equal; lia.
  - unfold bump, dict_get_default. rewrite dict_get_set_neq by assumption.
    reflexivity.
Qed.

Lemma bump_fold_keys (ns : list string) (d : dict) :
  (forall n, In n ns -> In n (dict_keys d)) ->
  dict_keys (fold_left bump ns d) = dict_keys d.
Proof.
  revert d. induction ns as [|n r IH]; intros d H; [reflexivity|].
  cbn [fold_left].
  assert (Hk : dict_keys (bump d n) = dict_keys d).
  { apply dict_keys_set_in, H. now left. }
  rewrite IH; [assumption|]. intros m Hm. rewrite Hk. apply H. now right.
Qed.

Lemma count_matched_fold (nms : list string) (idxs : list nat)
    (ns : list string) (d : dict) :
  Forall2 (fun i n => nth_error nms i = Some n) idxs ns ->
  count_matched nms idxs d = Ok (fold_left bump ns d).
Proof.
  intros H. revert d. induction H as [|i n idxs ns Hi _ IH]; intros d.
  - reflexivity.
  - cbn [count_matched fold_left]. unfold list_item. rewrite Hi.
    cbn [rbind]. apply IH.
Qed.

(** The names at the matched indexes are the matched names. *)
Lemma matched_idxs_names (matches : list bool) :
  forall (pre nms : list string),
    (List.length matches <= List.length nms)%nat ->
    Forall2 (fun i n => nth_error (pre ++ nms) i = Some n)
      (map fst (filter (fun ib : nat * bool => snd ib)
                  (combine (seq (List.length pre) (List.length matches)) matches)))
      (matched_names nms matches).
Proof.
  induction matches as [|b m IH]; intros pre nms Hlen.
  - constructor.
  - destruct nms as [|n nms]; [simpl in Hlen; lia|].
    simpl in Hlen.
    assert (Hrest :
      Forall2 (fun i s => nth_error (pre ++ n :: nms) i = Some s)
        (map fst (filter (fun ib : nat * bool => snd ib)
                    (combine (seq (S (List.length pre)) (List.length m)) m)))
        (matched_names nms m)).
    { specialize (IH (pre ++ [n]) nms).
      rewrite <- app_assoc in IH. simpl in IH.
      rewrite length_app in IH. simpl in IH.
      replace (List.length pre + 1)%nat with (S (List.length pre)) in IH by lia.
      apply IH. lia. }
    unfold matched_names. cbn [List.length seq combine filter fst snd map].
    destruct b; cbn [map fst snd]; [|exact Hrest].
    constructor; [|exact Hrest].
    rewrite nth_error_app2 by lia. now rewrite Nat.sub_diag.
Qed.

Lemma matched_names_incl (nms : list string) (matches : list bool) (n : string) :
  In n (matched_names nms matches) -> In n nms.
Proof.
  unfold matched_names. rewrite in_map_iff.
  intros ([b n'] & <- & Hin). apply filter_In in Hin as [Hin _].
  now apply in_combine_r in Hin.
Qed.

(** What the dictionary [counts] holds after the loop of lines 161-163. *)
Lemma count_matched_spec (nms : list string) (matches : list bool) :
  (List.length matches <= List.length nms)%nat ->
  exists counts,
    count_matched nms (matchedIdxs matches) (dict_zero nms) = Ok counts /\
    dict_keys counts = dict_keys (dict_zero nms) /\
    forall L, In L nms -> dict_get counts L = Some (votes nms matches L).
Proof.
  intros Hlen. exists (fold_left bump (matched_names nms matches) (dict_zero nms)).
  split; [|split].
  - apply count_matched_fold. unfold matchedIdxs, enumerate.
    apply (matched_idxs_names matches [] nms Hlen).
  - apply bump_fold_keys. intros n Hn. apply dict_zero_keys.
    eapply matched_names_incl; eauto.
  - intros L HL. rewrite bump_fold_get. unfold votes, dict_get_default.
    rewrite (dict_zero_get nms L HL).
    destruct (count_occ string_dec (matched_names nms matches) L); f_equal; lia.
Qed.

(** The loop of lines 66-68 never fails and counts the gallery entries
    per name. *)
Lemma count_names_fold (nms : list string) (d : dict) (s : state) :
  (forall n, In n nms -> In n (dict_keys d)) ->
  exists s', count_names nms d s = (Ok (fold_left bump nms d), s').
Proof.
  revert d s. induction nms as [|n r IH]; intros d s H.
  - eexists. reflexivity.
  - assert (Hn : In n (dict_keys d)) by (apply H; now left).
    apply dict_get_keys in Hn as [v Hv].
    cbn [count_names fold_left]. unfold bind, assign_name, lift, dict_item.
    rewrite Hv.
    assert (Hb : dict_set d n (v + 1) = bump d n).
    { unfold bump, dict_get_default. now rewrite Hv. }
    rewrite Hb. apply IH. intros m Hm. unfold bump.
    rewrite dict_keys_set_in; [apply H; now right | apply H; now left].
Qed.

Lemma count_names_spec (nms : list string) (s : state) :
  exists name_count s',
    count_names nms (dict_zero nms) s = (Ok name_count, s') /\
    forall L, In L nms -> dict_get name_count L = Some (population nms L).
Proof.
  destruct (count_names_fold nms (dict_zero nms) s) as [s' Hs'].
  { intros n Hn. now apply dict_zero_keys. }
  exists (fold_left bump nms (dict_zero nms)), s'. split; [assumption|].
  intros L HL. rewrite bump_fold_get. unfold population, dict_get_default.
  rewrite (dict_zero_get nms L HL).
  destruct (count_occ string_dec nms L); f_equal; lia.
Qed.

Lemma Qgt_bool_iff (x y : Q) : Qgt_bool x y = true <-> (y < x)%Q.
Proof.
  unfold Qgt_bool. rewrite negb_true_iff. split.
  - intros H. apply Qnot_le_lt. intros Hle.
    apply Qle_bool_iff in Hle. congruence.
  - intros H. destruct (Qle_bool x y) eqn:E; auto.
    apply Qle_bool_iff in E. exfalso. exact (Qlt_not_le _ _ H E).
Qed.

Lemma Qlt_bool_iff (x y : Q) : Qlt_bool x y = true <-> (x < y)%Q.
Proof. apply Qgt_bool_iff. Qed.

Lemma existsb_id_In (bs : list bool) :
  existsb (fun b => b) bs = true <-> In true bs.
Proof.
  rewrite existsb_exists. split.
  - intros (b & Hin & Hb). now subst.
  - intros H. exists true. auto.
Qed.

(** The comprehension of lines 173-174 succeeds as soon as [max_name] is
    a key of [name_count], and [all] of it is the margin test. *)
Lemma name_thresholds_spec (margin : Q) (name_count : dict) (w : string)
    (mv n : Z) (items : dict) :
  dict_get name_count w = Some n ->
  exists ths,
    name_thresholds margin name_count w mv items = Ok ths /\
    (all ths = true <->
     forall k v, In (k, v) items -> k <> w ->
       (inject_Z v + margin * inject_Z n < inject_Z mv)%Q).
Proof.
  intros Hn. induction items as [|[k v] r (ths & Hths & Hall)].
  - exists []. split; [reflexivity|]. split; [intros _ k v [] | reflexivity].
  - cbn [name_thresholds]. destruct (String.eqb_spec k w) as [->|Hne]; cbn [negb].
    + exists ths. split; [assumption|]. rewrite Hall. split.
      * intros H k v' [Heq|Hin] Hk; [inversion Heq; subst; contradiction|].
        now apply (H k v').
      * intros H k v' Hin. apply H. now right.
    + unfold dict_item. rewrite Hn. cbn [rbind]. rewrite Hths. cbn [rbind].
      eexists. split; [reflexivity|]. unfold all in *. cbn [forallb].
      rewrite andb_true_iff, Hall, Qgt_bool_iff. split.
      * intros [Hv H] k' v' [Heq|Hin] Hk; [inversion Heq; now subst|].
        now apply (H k' v').
      * intros H. split; [apply (H k v); auto; now left|].
        intros k' v' Hin. apply H. now right.
Qed.

(** The decision of lines 150-180 in terms of votes: when some gallery
    entry matches, the first label with the most votes is accepted if it
    passes the margin test against every other gallery label, and
    otherwise the decision is [None]. *)
Lemma decide_spec (margin : Q) (nms : list string) (name_count : dict)
    (matches : list bool) :
  (List.length matches <= List.length nms)%nat ->
  existsb (fun b => b) matches = true ->
  (forall L, In L nms -> dict_get name_count L = Some (population nms L)) ->
  exists w,
    is_winner nms matches w /\
    (margin_ok margin nms matches w ->
     decide margin nms name_count matches = Ok (PyStr w)) /\
    (~ margin_ok margin nms matches w ->
     decide margin nms name_count matches = Ok PyNone).
Proof.
  intros Hlen Hex Hnc. unfold decide. rewrite Hex.
  destruct (count_matched_spec nms matches Hlen) as (counts & -> & Hkeys & Hget).
  cbn [rbind].
  assert (Hnd : NoDup (dict_keys counts)).
  { rewrite Hkeys. apply dict_zero_NoDup. }
  assert (Hin_counts : forall L, In L nms -> In (L, votes nms matches L) counts).
  { intros L HL. apply dict_get_In; auto. }
  assert (Hcounts_in : forall k v, In (k, v) counts ->
            In k nms /\ v = votes nms matches k).
  { intros k v Hin.
    assert (Hk : In k nms).
    { apply dict_zero_keys. rewrite <- Hkeys. unfold dict_keys.
      change k with (fst (k, v)). now apply in_map. }
    split; [assumption|].
    apply dict_get_In in Hin; [|assumption]. rewrite (Hget k Hk) in Hin.
    congruence. }
  assert (Hne : counts <> []).
  { apply existsb_id_In in Hex. destruct matches as [|b m]; [destruct Hex|].
    destruct nms as [|n nms]; [simpl in Hlen; lia|].
    intros ->. destruct (Hin_counts n (or_introl eq_refl)). }
  destruct (max_key_spec counts Hne) as (w & v & pre & post & -> & Hd & Hpre & Hpost).
  rewrite (max_values_max_key counts w v pre post Hd Hpre Hpost).
  cbn [rbind].
  assert (Hw : In (w, v) counts).
  { rewrite Hd. apply in_or_app. right. now left. }
  destruct (Hcounts_in w v Hw) as [Hw_in Hv].
  destruct (name_thresholds_spec margin name_count w v (population nms w) counts
              (Hnc w Hw_in)) as (ths & -> & Hall).
  cbn [rbind].
  assert (Hmargin : all ths = true <-> margin_ok margin nms matches w).
  { rewrite Hall. unfold margin_ok. rewrite <- Hv. split.
    - intros H L HL Hne'. apply (H L); auto.
    - intros H k v' Hin Hk. destruct (Hcounts_in k v' Hin) as [Hk_in ->].
      now apply H. }
  exists w. split; [|split].
  - destruct (in_split_first w nms Hw_in) as (pre' & post' & Hnms & Hnotin).
    exists pre', post'. split; [assumption|]. split; [assumption|].
    rewrite <- Hv. split.
    + intros L HL.
      assert (Hpre_keys : dict_keys pre = dict_keys (dict_zero pre')).
      { destruct (dict_zero_keys_order pre' post' w Hnotin) as [ext Hext].
        rewrite <- Hnms, <- Hkeys in Hext.
        assert (Hsplit : dict_keys counts = dict_keys pre ++ w :: dict_keys post).
        { rewrite Hd. unfold dict_keys. now rewrite map_app. }
        eapply NoDup_split_unique with (x := w).
        - rewrite <- Hsplit. exact Hnd.
        - rewrite <- Hsplit. exact Hext. }
      assert (HLk : In L (dict_keys pre)).
      { rewrite Hpre_keys. now apply dict_zero_keys. }
      unfold dict_keys in HLk. apply in_map_iff in HLk as ([k' v'] & Hk' & Hin').
      simpl in Hk'. subst k'.
      assert (Hc : In (L, v') counts).
      { rewrite Hd. apply in_or_app. now left. }
      destruct (Hcounts_in L v' Hc) as [_ <-].
      apply (Hpre _ Hin').
    + intros L HL.
      assert (HLn : In L nms).
      { rewrite Hnms. apply in_or_app. right. now right. }
      specialize (Hin_counts L HLn). rewrite Hd in Hin_counts.
      apply in_app_or in Hin_counts as [Hin|[Hin|Hin]].
      * specialize (Hpre _ Hin). simpl in Hpre. lia.
      * inversion Hin. lia.
      * apply (Hpost _ Hin).
  - intros Hm. apply Hmargin in Hm. now rewrite Hm.
  - intros Hm. destruct (all ths) eqn:E; [|reflexivity].
    exfalso. apply Hm. now apply Hmargin.
Qed.

Lemma count_names_nonneg (nms : list string) (s s' : state) (name_count : dict) :
  count_names nms (dict_zero nms) s = (Ok name_count, s') ->
  forall k v, dict_get name_count k = Some v -> 0 <= v.
Proof.
  intros Hc k v Hk.
  destruct (count_names_fold nms (dict_zero nms) s) as [s0 Hs0].
  { intros n Hn. now apply dict_zero_keys. }
  rewrite Hs0 in Hc. inversion Hc; subst. clear Hc.
  rewrite bump_fold_get in Hk. unfold dict_get_default, dict_zero in Hk.
  rewrite zero_fold_get in Hk.
  destruct (count_occ string_dec nms k), (in_dec string_dec k nms);
    simpl in Hk; inversion Hk; lia.
Qed.

(** Lowering the margin keeps every threshold test that passed. *)
Lemma name_thresholds_antitone (m m' : Q) (name_count : dict) (w : string)
    (mv : Z) (items : dict) :
  (m' <= m)%Q ->
  (forall k v, dict_get name_count k = Some v -> 0 <= v) ->
  match name_thresholds m name_count w mv items,
        name_thresholds m' name_count w mv items with
  | Ok ths, Ok ths' => all ths = true -> all ths' = true
  | Raise e, Raise e' => e = e'
  | _, _ => False
  end.
Proof.
  intros Hm Hnn. induction items as [|[k v] r IH]; cbn [name_thresholds].
  - auto.
  - destruct (negb (String.eqb k w)); [|exact IH].
    unfold dict_item. destruct (dict_get name_count w) as [n|] eqn:En;
      cbn [rbind]; [|reflexivity].
    destruct (name_thresholds m name_count w mv r) as [ths|e],
             (name_thresholds m' name_count w mv r) as [ths'|e'];
      cbn [rbind]; try assumption.
    unfold all in *. cbn [forallb]. rewrite !andb_true_iff, !Qgt_bool_iff.
    intros [Hlt Hall]. split; [|auto].
    eapply Qle_lt_trans; [|exact Hlt].
    apply Qplus_le_r. apply Qmult_le_compat_r; [assumption|].
    specialize (Hnn _ _ En). unfold Qle. simpl. lia.
Qed.

(** The decisions at two margins [m' <= m] agree, except that a [None]
    at [m] may be an accepted label at [m']. *)
Lemma decide_antitone (m m' : Q) (nms : list string) (name_count : dict)
    (matches : list bool) :
  (m' <= m)%Q ->
  (forall k v, dict_get name_count k = Some v -> 0 <= v) ->
  match decide m nms name_count matches, decide m' nms name_count matches with
  | Ok v, Ok v' => v = v' \/ (v = PyNone /\ exists n, v' = PyStr n)
  | Raise e, Raise e' => e = e'
  | _, _ => False
  end.
Proof.
  intros Hm Hnn. unfold decide.
  destruct (existsb (fun b => b) matches); [|now left].
  destruct (count_matched nms (matchedIdxs matches) (dict_zero nms))
    as [counts|e]; cbn [rbind]; [|reflexivity].
  destruct (max_values (dict_values counts)) as [mv|e]; cbn [rbind];
    [|reflexivity].
  destruct (max_key counts) as [w|e]; cbn [rbind]; [|reflexivity].
  pose proof (name_thresholds_antitone m m' name_count w mv counts Hm Hnn) as H.
  destruct (name_thresholds m name_count w mv counts) as [ths|e],
           (name_thresholds m' name_count w mv counts) as [ths'|e'];
    cbn [rbind]; try assumption.
  destruct (all ths) eqn:E.
  - rewrite (H eq_refl). now left.
  - destruct (all ths'); [right; eauto | now left].
Qed.

Lemma is_winner_In (nms : list string) (matches : list bool) (w : string) :
  is_winner nms matches w -> In w nms.
Proof.
  intros (pre & post & -> & _). apply in_or_app. right. now left.
Qed.

Lemma is_winner_max (nms : list string) (matches : list bool) (w L : string) :
  is_winner nms matches w -> In L nms ->
  votes nms matches L <= votes nms matches w.
Proof.
  intros (pre & post & -> & _ & Hpre & Hpost) HL.
  apply in_app_or in HL as [HL|[<-|HL]].
  - specialize (Hpre L HL). lia.
  - lia.
  - now apply Hpost.
Qed.

(** A gallery made of two labels only. *)
Lemma two_labels (nms : list string) (a b : string) :
  a <> b ->
  (count_occ string_dec nms a + count_occ string_dec nms b = List.length nms)%nat ->
  forall x, In x nms -> x = a \/ x = b.
Proof.
  intros Hab.
  assert (Hle : forall l : list string,
            (count_occ string_dec l a + count_occ string_dec l b
             <= List.length l)%nat).
  { induction l as [|y l IHl]; cbn [count_occ List.length]; [lia|].
    destruct (string_dec y a) as [Ha|Ha], (string_dec y b) as [Hb|Hb];
      try congruence; lia. }
  induction nms as [|n r IH]; intros Hc x Hx; [destruct Hx|].
  cbn [count_occ List.length] in Hc. specialize (Hle r).
  destruct (string_dec n a) as [Hna|Hna], (string_dec n b) as [Hnb|Hnb];
    try congruence.
  - destruct Hx as [<-|Hx]; [now left|]. apply IH; [lia | assumption].
  - destruct Hx as [<-|Hx]; [now right|]. apply IH; [lia | assumption].
  - exfalso. lia.
Qed.

Lemma population_pos_In (nms : list string) (L : string) :
  0 < population nms L -> In L nms.
Proof.
  unfold population. intros H.
  apply (count_occ_In string_dec). lia.
Qed.

Lemma margin_ok_decidable (margin : Q) (nms : list string) (matches : list bool)
    (w : string) :
  margin_ok margin nms matches w \/ ~ margin_ok margin nms matches w.
Proof.
  unfold margin_ok.
  set (P := fun L : string =>
              L <> w ->
              (inject_Z (votes nms matches L)
               + margin * inject_Z (population nms w)
               < inject_Z (votes nms matches w))%Q).
  assert (Pdec : forall L, {P L} + {~ P L}).
  { intros L. unfold P. destruct (string_dec L w) as [->|Hne].
    - left. intros H. now contradiction H.
    - destruct (Qlt_le_dec
                  (inject_Z (votes nms matches L)
                   + margin * inject_Z (population nms w))
                  (inject_Z (votes nms matches w))) as [Hlt|Hle].
      + left. auto.
      + right. intros H. exact (Qlt_not_le _ _ (H Hne) Hle). }
  destruct (Forall_dec P Pdec nms) as [Hall|Hnot].
  - left. intros L HL. exact (proj1 (Forall_forall P nms) Hall L HL).
  - right. intros H. apply Hnot. apply Forall_forall. intros L HL.
    unfold P. exact (H L HL).
Qed.

Lemma votes_pos_match (nms : list string) (matches : list bool) (L : string) :
  0 < votes nms matches L -> In true matches.
Proof.
  unfold votes. intros H.
  assert (Hin : In L (matched_names nms matches)).
  { apply (count_occ_In string_dec). lia. }
  unfold matched_names in Hin. apply in_map_iff in Hin as ([b n] & _ & Hin).
  apply filter_In in Hin as [Hin Hb]. simpl in Hb. subst b.
  now apply in_combine_l in Hin.
Qed.

End VoteFacts.

(** ** Properties of the embedding-voting resolver *)

Module ResolverProps.
Import Py Img FaceDetRec VoteSpec PyFacts VoteFacts Examples.

Section Resolver.
Variable Enc : Type.
Variable face_distance : Enc -> Enc -> Q.

(** Some gallery entry is within the tolerance of the face. *)
Lemma compare_faces_true (tolerance : Q) (known : list Enc) (e : Enc) :
  In true (compare_faces Enc face_distance known e tolerance) <->
  exists k, In k known /\ (face_distance k e <= tolerance)%Q.
Proof.
  unfold compare_faces. rewrite in_map_iff. split.
  - intros (k & Hk & Hin). exists k. split; [assumption|].
    now apply Qle_bool_iff.
  - intros (k & Hin & Hk). exists k. split; [|assumption].
    now apply Qle_bool_iff.
Qed.

Lemma compare_faces_length (tolerance : Q) (known : list Enc) (e : Enc) :
  List.length (compare_faces Enc face_distance known e tolerance)
  = List.length known.
Proof. unfold compare_faces. apply length_map. Qed.

(** Without a match the loop body leaves [name = 'Unknown']. *)
Lemma resolve_no_match (tolerance margin : Q) (data : gallery Enc)
    (name_count : dict) (e : Enc) :
  (forall k, In k (encodings data) -> ~ (face_distance k e <= tolerance)%Q) ->
  resolve Enc face_distance tolerance margin data name_count e
  = Ok (PyStr "Unknown").
Proof.
  intros Hno. unfold resolve, decide.
  destruct (existsb (fun b => b)
              (compare_faces Enc face_distance (encodings data) e tolerance))
    eqn:E; [|reflexivity].
  apply existsb_id_In, compare_faces_true in E as (k & Hin & Hk).
  exfalso. exact (Hno k Hin Hk).
Qed.

(** C2.  If no gallery entry is within the comparison tolerance of the
    face embedding, the resolver's outcome for the face is the string
    ["Unknown"] (and not [None]), for every gallery, embedding, tolerance
    and margin. *)
Theorem resolve_no_match_unknown (tolerance margin : Q) (data : gallery Enc)
    (name_count : dict) (e : Enc) :
  (forall k, In k (encodings data) -> ~ (face_distance k e <= tolerance)%Q) ->
  resolve Enc face_distance tolerance margin data name_count e
  = Ok (PyStr "Unknown") /\
  resolve Enc face_distance tolerance margin data name_count e <> Ok PyNone.
Proof.
  intros Hno. rewrite (resolve_no_match tolerance margin data name_count e Hno).
  split; [reflexivity | discriminate].
Qed.

(** The resolver in terms of votes, for a gallery whose names cover its
    encodings and the [name_count] the script computes. *)
Lemma resolve_vote_spec (tolerance margin : Q) (data : gallery Enc)
    (name_count : dict) (e : Enc) (s : state) :
  (List.length (encodings data) <= List.length (names data))%nat ->
  fst (count_names (names data) (dict_zero (names data)) s) = Ok name_count ->
  In true (compare_faces Enc face_distance (encodings data) e tolerance) ->
  let matches := compare_faces Enc face_distance (encodings data) e tolerance in
  exists w,
    is_winner (names data) matches w /\
    (margin_ok margin (names data) matches w ->
     resolve Enc face_distance tolerance margin data name_count e = Ok (PyStr w)) /\
    (~ margin_ok margin (names data) matches w ->
     resolve Enc face_distance tolerance margin data name_count e = Ok PyNone).
Proof.
  intros Hlen Hnc Hex matches.
  destruct (count_names_spec (names data) s) as (nc & s' & Hcn & Hpop).
  rewrite Hcn in Hnc. simpl in Hnc. inversion Hnc; subst nc. clear Hnc.
  apply (decide_spec margin (names data) name_count matches); auto.
  - subst matches. now rewrite compare_faces_length.
  - now apply existsb_id_In.
Qed.

(** C1, as the code has it.  When at least one gallery entry matches,
    the first label with the most votes, [w], is accepted if and only if
    for every other gallery label [L] with vote count [v],
    [votes w > v + margin * name_count[w]], where [name_count[w]] is the
    gallery population of the winner [w] itself; if the inequality fails
    for some other label the outcome is [None]. *)
Theorem resolve_margin_rule (tolerance margin : Q) (data : gallery Enc)
    (name_count : dict) (e : Enc) (s : state) :
  (List.length (encodings data) <= List.length (names data))%nat ->
  fst (count_names (names data) (dict_zero (names data)) s) = Ok name_count ->
  (exists k, In k (encodings data) /\ (face_distance k e <= tolerance)%Q) ->
  let matches := compare_faces Enc face_distance (encodings data) e tolerance in
  exists w,
    is_winner (names data) matches w /\
    (resolve Enc face_distance tolerance margin data name_count e = Ok (PyStr w)
     <-> margin_ok margin (names data) matches w) /\
    (resolve Enc face_distance tolerance margin data name_count e = Ok PyNone
     <-> ~ margin_ok margin (names data) matches w).
Proof.
  intros Hlen Hnc Hex matches.
  destruct (resolve_vote_spec tolerance margin data name_count e s Hlen Hnc)
    as (w & Hw & Hyes & Hno).
  { now apply compare_faces_true. }
  exists w. split; [assumption|]. fold matches in Hyes, Hno. split; split.
  - intros Hr.
    destruct (margin_ok_decidable margin (names data) matches w) as [Hm|Hm];
      [assumption|].
    rewrite (Hno Hm) in Hr. discriminate.
  - exact Hyes.
  - intros Hr Hm. rewrite (Hyes Hm) in Hr. discriminate.
  - exact Hno.
Qed.

(** C9.  With the margin 0.20 of the script: in a gallery of ten
    embeddings of Alice and two of Bob, a face that matches exactly six
    entries of Alice and one of Bob resolves to ["Alice"]; in a gallery of
    five embeddings of Alice and five of Bob, a face that matches three
    entries of each resolves to [None]; in whatever order the entries are
    stored. *)
Theorem vote_margin_scenarios (dataA dataB : gallery Enc)
    (name_countA name_countB : dict) (eA eB : Enc) (s : state) :
  let matchesA :=
    compare_faces Enc face_distance (encodings dataA) eA COMPARE_FACES_TOLERANCE in
  let matchesB :=
    compare_faces Enc face_distance (encodings dataB) eB COMPARE_FACES_TOLERANCE in
  List.length (encodings dataA) = List.length (names dataA) ->
  fst (count_names (names dataA) (dict_zero (names dataA)) s) = Ok name_countA ->
  List.length (names dataA) = 12%nat ->
  population (names dataA) "Alice" = 10 ->
  population (names dataA) "Bob" = 2 ->
  votes (names dataA) matchesA "Alice" = 6 ->
  votes (names dataA) matchesA "Bob" = 1 ->
  List.length (encodings dataB) = List.length (names dataB) ->
  fst (count_names (names dataB) (dict_zero (names dataB)) s) = Ok name_countB ->
  List.length (names dataB) = 10%nat ->
  population (names dataB) "Alice" = 5 ->
  population (names dataB) "Bob" = 5 ->
  votes (names dataB) matchesB "Alice" = 3 ->
  votes (names dataB) matchesB "Bob" = 3 ->
  resolve Enc face_distance COMPARE_FACES_TOLERANCE NAME_THRESHOLD
    dataA name_countA eA = Ok (PyStr "Alice") /\
  resolve Enc face_distance COMPARE_FACES_TOLERANCE NAME_THRESHOLD
    dataB name_countB eB = Ok PyNone.
Proof.
  intros matchesA matchesB HlenA HncA HnA HpA HpB HvA HvB
         HlenB HncB HnB HqA HqB HwA HwB.
  assert (Hab : "Alice"%string <> "Bob"%string) by discriminate.
  split.
  - destruct (resolve_vote_spec COMPARE_FACES_TOLERANCE NAME_THRESHOLD
                dataA name_countA eA s) as (w & Hw & Hyes & _); auto; [lia| |].
    { apply (votes_pos_match (names dataA) _ "Alice"). fold matchesA. lia. }
    fold matchesA in Hw, Hyes.
    assert (Htwo : forall x, In x (names dataA) -> x = "Alice"%string \/ x = "Bob"%string).
    { apply two_labels; [assumption|]. unfold population in HpA, HpB. lia. }
    assert (HinA : In "Alice"%string (names dataA)).
    { apply population_pos_In. lia. }
    assert (w = "Alice"%string) as ->.
    { destruct (Htwo w (is_winner_In _ _ _ Hw)) as [->| ->]; [reflexivity|].
      pose proof (is_winner_max _ _ _ "Alice"%string Hw HinA). lia. }
    apply Hyes. intros L HL Hne.
    destruct (Htwo L HL) as [->| ->]; [congruence|].
    rewrite HvA, HvB, HpA. reflexivity.
  - destruct (resolve_vote_spec COMPARE_FACES_TOLERANCE NAME_THRESHOLD
                dataB name_countB eB s) as (w & Hw & _ & Hno); auto; [lia| |].
    { apply (votes_pos_match (names dataB) _ "Alice"). fold matchesB. lia. }
    fold matchesB in Hw, Hno.
    assert (Htwo : forall x, In x (names dataB) -> x = "Alice"%string \/ x = "Bob"%string).
    { apply two_labels; [assumption|]. unfold population in HqA, HqB. lia. }
    assert (HinA : In "Alice"%string (names dataB)).
    { apply population_pos_In. lia. }
    assert (HinB : In "Bob"%string (names dataB)).
    { apply population_pos_In. lia. }
    apply Hno. intros Hm.
    destruct (Htwo w (is_winner_In _ _ _ Hw)) as [->| ->].
    + specialize (Hm "Bob"%string HinB (not_eq_sym Hab)).
      rewrite HwA, HwB, HqA in Hm. discriminate Hm.
    + specialize (Hm "Alice"%string HinA Hab).
      rewrite HwA, HwB, HqB in Hm. discriminate Hm.
Qed.

(** C8.  For a fixed gallery and face embedding the acceptance test is
    antitone in the margin: an identity accepted at margin [m] is
    accepted at every margin [m' <= m]; a [None] at [m'] stays [None] at
    [m]; and a face without any match is ["Unknown"] at every margin. *)
Theorem resolve_margin_antitone (tolerance m m' : Q) (data : gallery Enc)
    (name_count : dict) (e : Enc) (s : state) :
  fst (count_names (names data) (dict_zero (names data)) s) = Ok name_count ->
  (m' <= m)%Q ->
  (forall n,
      resolve Enc face_distance tolerance m data name_count e = Ok (PyStr n) ->
      resolve Enc face_distance tolerance m' data name_count e = Ok (PyStr n)) /\
  (resolve Enc face_distance tolerance m' data name_count e = Ok PyNone ->
   resolve Enc face_distance tolerance m data name_count e = Ok PyNone) /\
  ((forall k, In k (encodings data) -> ~ (face_distance k e <= tolerance)%Q) ->
   resolve Enc face_distance tolerance m' data name_count e = Ok (PyStr "Unknown") /\
   resolve Enc face_distance tolerance m data name_count e = Ok (PyStr "Unknown")).
Proof.
  intros Hnc Hm.
  assert (Hnn : forall k v, dict_get name_count k = Some v -> 0 <= v).
  { destruct (count_names (names data) (dict_zero (names data)) s)
      as [r s'] eqn:Hc. simpl in Hnc. subst r.
    exact (count_names_nonneg _ _ _ _ Hc). }
  split; [|split].
  3: { intros Hno. split; now apply resolve_no_match. }
  all: pose proof (decide_antitone m m' (names data) name_count
                (compare_faces Enc face_distance (encodings data) e tolerance)
                Hm Hnn) as H; unfold resolve;
    destruct (decide m (names data) name_count
                (compare_faces Enc face_distance (encodings data) e tolerance))
      as [v|ex],
      (decide m' (names data) name_count
                (compare_faces Enc face_distance (encodings data) e tolerance))
      as [v'|ex']; try contradiction; try discriminate.
  - intros n Hn. inversion Hn; subst.
    destruct H as [<-|[Hv _]]; [reflexivity | discriminate].
  - intros Hn. inversion Hn; subst.
    destruct H as [->|[-> _]]; reflexivity.
Qed.

End Resolver.

Lemma resolve_no_match_unknown_witness :
  resolve Q dist COMPARE_FACES_TOLERANCE NAME_THRESHOLD gallery_D
    name_count_1_1 probe = Ok (PyStr "Unknown") /\
  resolve Q dist COMPARE_FACES_TOLERANCE NAME_THRESHOLD gallery_D
    name_count_1_1 probe <> Ok PyNone.
Proof.
  apply (resolve_no_match_unknown Q dist).
  intros k Hk. each_member Hk; vm_compute; intros H; apply H; reflexivity.
Defined.

Lemma resolve_margin_rule_witness :
  exists w,
    is_winner (names gallery_A)
      (compare_faces Q dist (encodings gallery_A) probe COMPARE_FACES_TOLERANCE) w /\
    (resolve Q dist COMPARE_FACES_TOLERANCE NAME_THRESHOLD gallery_A
       name_count_10_2 probe = Ok (PyStr w)
     <-> margin_ok NAME_THRESHOLD (names gallery_A)
           (compare_faces Q dist (encodings gallery_A) probe COMPARE_FACES_TOLERANCE) w) /\
    (resolve Q dist COMPARE_FACES_TOLERANCE NAME_THRESHOLD gallery_A
       name_count_10_2 probe = Ok PyNone
     <-> ~ margin_ok NAME_THRESHOLD (names gallery_A)
           (compare_faces Q dist (encodings gallery_A) probe COMPARE_FACES_TOLERANCE) w).
Proof.
  apply (resolve_margin_rule Q dist COMPARE_FACES_TOLERANCE NAME_THRESHOLD
           gallery_A name_count_10_2 probe initial_state).
  - simpl. lia.
  - reflexivity.
  - exists near. split; [simpl; auto | vm_compute; discriminate].
Defined.

(** C1 as worded, with the margin scaled by the competitor's population,
    fails: with ten embeddings of Alice and two of Bob, a face matching
    three of Alice's and one of Bob's passes the worded test
    ([3 > 1 + 0.20 * 2]) and yet is not accepted, because the script
    compares against [1 + 0.20 * 10]. *)
Lemma margin_rule_competitor_counterexample :
  let matches :=
    compare_faces Q dist (encodings gallery_C) probe COMPARE_FACES_TOLERANCE in
  fst (count_names (names gallery_C) (dict_zero (names gallery_C)) initial_state)
  = Ok name_count_10_2 /\
  In true matches /\
  is_winner (names gallery_C) matches "Alice" /\
  margin_ok_competitor NAME_THRESHOLD (names gallery_C) matches "Alice" /\
  resolve Q dist COMPARE_FACES_TOLERANCE NAME_THRESHOLD gallery_C
    name_count_10_2 probe = Ok PyNone /\
  ~ (resolve Q dist COMPARE_FACES_TOLERANCE NAME_THRESHOLD gallery_C
       name_count_10_2 probe = Ok (PyStr "Alice")
     <-> margin_ok_competitor NAME_THRESHOLD (names gallery_C) matches "Alice").
Proof.
  intros matches.
  assert (Hcomp : margin_ok_competitor NAME_THRESHOLD (names gallery_C)
                    matches "Alice").
  { intros L HL Hne. each_member HL; reflexivity. }
  assert (Hres : resolve Q dist COMPARE_FACES_TOLERANCE NAME_THRESHOLD gallery_C
                   name_count_10_2 probe = Ok PyNone) by reflexivity.
  split; [reflexivity|].
  split; [simpl; auto|].
  split.
  { exists [], (List.tl (names gallery_C)).
    split; [reflexivity|]. split; [intros []|]. split; [intros L []|].
    intros L HL. each_member HL; vm_compute; discriminate. }
  split; [exact Hcomp|].
  split; [exact Hres|].
  intros [_ H]. specialize (H Hcomp). rewrite Hres in H. discriminate.
Defined.

Lemma vote_margin_scenarios_witness :
  resolve Q dist COMPARE_FACES_TOLERANCE NAME_THRESHOLD
    gallery_A name_count_10_2 probe = Ok (PyStr "Alice") /\
  resolve Q dist COMPARE_FACES_TOLERANCE NAME_THRESHOLD
    gallery_B name_count_5_5 probe = Ok PyNone.
Proof.
  apply (vote_margin_scenarios Q dist gallery_A gallery_B
           name_count_10_2 name_count_5_5 probe probe initial_state);
    reflexivity.
Defined.

Lemma resolve_margin_antitone_witness :
  (forall n,
      resolve Q dist COMPARE_FACES_TOLERANCE (3 # 10) gallery_A name_count_10_2 probe
      = Ok (PyStr n) ->
      resolve Q dist COMPARE_FACES_TOLERANCE NAME_THRESHOLD gallery_A
        name_count_10_2 probe = Ok (PyStr n)) /\
  (resolve Q dist COMPARE_FACES_TOLERANCE NAME_THRESHOLD gallery_A
     name_count_10_2 probe = Ok PyNone ->
   resolve Q dist COMPARE_FACES_TOLERANCE (3 # 10) gallery_A name_count_10_2 probe
   = Ok PyNone) /\
  ((forall k, In k (encodings gallery_A) ->
              ~ (dist k probe <= COMPARE_FACES_TOLERANCE)%Q) ->
   resolve Q dist COMPARE_FACES_TOLERANCE NAME_THRESHOLD gallery_A
     name_count_10_2 probe = Ok (PyStr "Unknown") /\
   resolve Q dist COMPARE_FACES_TOLERANCE (3 # 10) gallery_A name_count_10_2 probe
   = Ok (PyStr "Unknown")).
Proof.
  apply (resolve_margin_antitone Q dist COMPARE_FACES_TOLERANCE (3 # 10)
           NAME_THRESHOLD gallery_A name_count_10_2 probe initial_state).
  - reflexivity.
  - vm_compute. discriminate.
Defined.

End ResolverProps.

(** ** Properties of the face_det_rec.py script *)

Module ScriptProps.
Import Py Img FaceDetRec VoteSpec ScriptSpec PyFacts VoteFacts Examples.

Section Script.
Variable Enc : Type.
Variable Gray : Type.
Variable face_distance : Enc -> Enc -> Q.
Variable imread : string -> option ndarray.
Variable face_locations : ndarray -> nat -> string -> list face_location.
Variable face_encodings : ndarray -> list face_location -> nat -> list Enc.
Variable cvtColor_BGR2GRAY : ndarray -> Gray.
Variable Laplacian_var : Gray -> Q.
Variable data : gallery Enc.

Abbreviation resolve_here :=
  (resolve Enc face_distance COMPARE_FACES_TOLERANCE NAME_THRESHOLD data).
Abbreviation for_encodings_here := (for_encodings Enc face_distance data).
Abbreviation process_label_here :=
  (process_label Enc Gray face_distance face_locations face_encodings
     cvtColor_BGR2GRAY Laplacian_var data).

Abbreviation focus_here := (focus_of Gray cvtColor_BGR2GRAY Laplacian_var).

(** The loop over the embeddings makes no call of [face_encodings]. *)
Lemma for_encodings_calls (name_count : dict) (encs : list Enc) :
  forall s, face_encodings_calls (snd (for_encodings_here name_count encs s))
            = face_encodings_calls s.
Proof.
  induction encs as [|e r IH]; intros s; [reflexivity|].
  cbn [for_encodings]. unfold bind, lift, assign_name.
  destruct (resolve_here name_count e) as [v|ex]; [|reflexivity].
  rewrite IH. reflexivity.
Qed.

(** When no iteration raises, the loop leaves in [name] the decision for
    the last embedding. *)
Lemma for_encodings_last (name_count : dict) (es : list Enc) (e_last : Enc)
    (v : value) :
  (forall e, In e es -> exists u, resolve_here name_count e = Ok u) ->
  resolve_here name_count e_last = Ok v ->
  forall s, for_encodings_here name_count (es ++ [e_last]) s = (Ok tt, named v s).
Proof.
  intros Hes Hlast. induction es as [|e r IH]; intros s.
  - cbn [app for_encodings]. unfold bind, lift, assign_name, ret.
    rewrite Hlast. reflexivity.
  - cbn [app for_encodings]. unfold bind, lift, assign_name.
    destruct (Hes e (or_introl eq_refl)) as [u ->].
    rewrite IH by (intros e' He'; apply Hes; now right). reflexivity.
Qed.

(** With a gallery whose names cover its encodings, no iteration raises. *)
Lemma resolve_total (name_count : dict) (e : Enc) (s : state) :
  (List.length (encodings data) <= List.length (names data))%nat ->
  fst (count_names (names data) (dict_zero (names data)) s) = Ok name_count ->
  exists v, resolve_here name_count e = Ok v.
Proof.
  intros Hlen Hnc.
  destruct (existsb (fun b => b)
              (compare_faces Enc face_distance (encodings data) e
                 COMPARE_FACES_TOLERANCE)) eqn:E.
  - apply existsb_id_In in E.
    destruct (ResolverProps.resolve_vote_spec Enc face_distance
                COMPARE_FACES_TOLERANCE NAME_THRESHOLD data name_count e s
                Hlen Hnc E) as (w & _ & Hyes & Hno).
    destruct (margin_ok_decidable NAME_THRESHOLD (names data)
                (compare_faces Enc face_distance (encodings data) e
                   COMPARE_FACES_TOLERANCE) w) as [Hm|Hm]; eauto.
  - exists (PyStr "Unknown"). unfold resolve, decide. now rewrite E.
Qed.

(** A person box with a non-empty region in which a face was found:
    what is left of [process_label] is the blur gate and what follows. *)
Lemma process_label_face (name_count : dict) (img : ndarray) (l : label)
    (loc : face_location) (rest : list face_location) (s : state) :
  name l = "person"%string ->
  size (roi_of img l) <> 0%nat ->
  face_locations (cvtColor_BGR2RGB (roi_of img l))
    NUMBER_OF_TIMES_TO_UPSAMPLE FACE_DET_MODEL = loc :: rest ->
  process_label_here name_count img l s =
  ((if Qlt_bool (focus_here (roi_of img l) loc) FOCUS_MEASURE_THRESHOLD
    then assign_name PyNone
    else
      encs <- call_face_encodings Enc face_encodings
                (cvtColor_BGR2RGB (roi_of img l)) (loc :: rest) ;;
      for_encodings_here name_count encs) ;;
   v <- read_name ;;
   ret (set_face l v)) s.
Proof.
  intros Hp Hsz Hfl. unfold process_label. rewrite Hp. cbn [String.eqb].
  change (crop img (ymin (bbox l)) (ymax (bbox l))
            (xmin (bbox l)) (xmax (bbox l))) with (roi_of img l).
  apply Nat.eqb_neq in Hsz.
  repeat match goal with
         | |- context [String.eqb ?a ?b] =>
             change (String.eqb a b) with true; cbv iota
         end.
  rewrite Hsz, Hfl. destruct loc as [[[t r] b] lf]. reflexivity.
Qed.

(** The blur gate closed: [name = None], and no embedding is computed. *)
Lemma process_label_blurry (name_count : dict) (img : ndarray) (l : label)
    (loc : face_location) (rest : list face_location) (s : state) :
  name l = "person"%string ->
  size (roi_of img l) <> 0%nat ->
  face_locations (cvtColor_BGR2RGB (roi_of img l))
    NUMBER_OF_TIMES_TO_UPSAMPLE FACE_DET_MODEL = loc :: rest ->
  (focus_here (roi_of img l) loc < FOCUS_MEASURE_THRESHOLD)%Q ->
  process_label_here name_count img l s
  = (Ok (set_face l PyNone), named PyNone s).
Proof.
  intros Hp Hsz Hfl Hfm.
  rewrite (process_label_face name_count img l loc rest s Hp Hsz Hfl).
  apply Qlt_bool_iff in Hfm. rewrite Hfm. reflexivity.
Qed.

(** The blur gate open: [face_encodings] is called on all the locations,
    and the loop over the embeddings decides. *)
Lemma process_label_sharp (name_count : dict) (img : ndarray) (l : label)
    (loc : face_location) (rest : list face_location) (s : state) :
  name l = "person"%string ->
  size (roi_of img l) <> 0%nat ->
  face_locations (cvtColor_BGR2RGB (roi_of img l))
    NUMBER_OF_TIMES_TO_UPSAMPLE FACE_DET_MODEL = loc :: rest ->
  (FOCUS_MEASURE_THRESHOLD <= focus_here (roi_of img l) loc)%Q ->
  process_label_here name_count img l s =
  (for_encodings_here name_count
     (face_encodings (cvtColor_BGR2RGB (roi_of img l)) (loc :: rest) NUM_JITTERS) ;;
   v <- read_name ;;
   ret (set_face l v)) (logged (loc :: rest) s).
Proof.
  intros Hp Hsz Hfl Hfm.
  rewrite (process_label_face name_count img l loc rest s Hp Hsz Hfl).
  assert (Hb : Qlt_bool (focus_here (roi_of img l) loc) FOCUS_MEASURE_THRESHOLD
               = false).
  { destruct (Qlt_bool _ _) eqn:E; [|reflexivity].
    apply Qlt_bool_iff in E. exfalso. exact (Qlt_not_le _ _ E Hfm). }
  rewrite Hb. reflexivity.
Qed.

(** What follows the blur gate makes no call of [face_encodings]. *)
Lemma finish_label_calls (name_count : dict) (encs : list Enc) (l : label)
    (s : state) :
  face_encodings_calls
    (snd ((for_encodings_here name_count encs ;;
           v <- read_name ;;
           ret (set_face l v)) s))
  = face_encodings_calls s.
Proof.
  unfold bind. pose proof (for_encodings_calls name_count encs s) as H.
  destruct (for_encodings_here name_count encs s) as [[[]|ex] s1]; simpl in H;
    [|exact H].
  unfold read_name, ret. destruct (var_name s1); exact H.
Qed.

(** An empty person region: [face = None], nothing else happens. *)
Lemma process_label_empty_roi (name_count : dict) (img : ndarray) (l : label)
    (s : state) :
  name l = "person"%string ->
  size (roi_of img l) = 0%nat ->
  process_label_here name_count img l s = (Ok (set_face l PyNone), s).
Proof.
  intros Hp Hsz. unfold process_label. rewrite Hp.
  change (crop img (ymin (bbox l)) (ymax (bbox l))
            (xmin (bbox l)) (xmax (bbox l))) with (roi_of img l).
  apply Nat.eqb_eq in Hsz.
  repeat match goal with
         | |- context [String.eqb ?a ?b] =>
             change (String.eqb a b) with true; cbv iota
         end.
  now rewrite Hsz.
Qed.

(** A sharp face for which [face_encodings] returns no embedding: line
    183 writes whatever [name] held before. *)
Lemma process_label_no_encodings (name_count : dict) (img : ndarray) (l : label)
    (loc : face_location) (rest : list face_location) (s : state) :
  name l = "person"%string ->
  size (roi_of img l) <> 0%nat ->
  face_locations (cvtColor_BGR2RGB (roi_of img l))
    NUMBER_OF_TIMES_TO_UPSAMPLE FACE_DET_MODEL = loc :: rest ->
  (FOCUS_MEASURE_THRESHOLD <= focus_here (roi_of img l) loc)%Q ->
  face_encodings (cvtColor_BGR2RGB (roi_of img l)) (loc :: rest) NUM_JITTERS = [] ->
  process_label_here name_count img l s =
  (match var_name s with
   | Some v => Ok (set_face l v)
   | None => Raise NameError
   end, logged (loc :: rest) s).
Proof.
  intros Hp Hsz Hfl Hfm Hnil.
  rewrite (process_label_sharp name_count img l loc rest s Hp Hsz Hfl Hfm).
  rewrite Hnil. unfold bind, read_name, ret. cbn [for_encodings].
  unfold ret. cbn [logged var_name]. destruct (var_name s); reflexivity.
Qed.



End Script.




End ScriptProps.

(** ** Properties of the person classifier server *)

Module ClassifierProps.
Import Py Img PersonClassifier ScriptSpec Examples.

(** The running arg-max: the index and value of the first greatest entry
    of [pre ++ xs], given those of [pre]. *)
Lemma argmax_from_spec (xs : list Q) :
  forall (pre : list Q) (bi : nat) (bp : Q),
    nth_error pre bi = Some bp ->
    (forall q, In q pre -> (q <= bp)%Q) ->
    (forall i q, (i < bi)%nat -> nth_error pre i = Some q -> (q < bp)%Q) ->
    nth_error (pre ++ xs) (fst (argmax_from (List.length pre) (bi, bp) xs))
    = Some (snd (argmax_from (List.length pre) (bi, bp) xs)) /\
    (forall q, In q (pre ++ xs) ->
               (q <= snd (argmax_from (List.length pre) (bi, bp) xs))%Q) /\
    (forall i q,
        (i < fst (argmax_from (List.length pre) (bi, bp) xs))%nat ->
        nth_error (pre ++ xs) i = Some q ->
        (q < snd (argmax_from (List.length pre) (bi, bp) xs))%Q).
Proof.
  induction xs as [|x r IH]; intros pre bi bp Hnth Hub Hfirst.
  - cbn [argmax_from fst snd]. rewrite app_nil_r. auto.
  - cbn [argmax_from snd].
    assert (Hbi : (bi < List.length pre)%nat).
    { apply nth_error_Some. congruence. }
    replace (pre ++ x :: r) with ((pre ++ [x]) ++ r)
      by (rewrite <- app_assoc; reflexivity).
    replace (S (List.length pre)) with (List.length (pre ++ [x]))
      by (rewrite length_app; simpl; lia).
    destruct (Qle_bool x bp) eqn:E.
    + apply Qle_bool_iff in E. apply IH.
      * rewrite nth_error_app1 by assumption. assumption.
      * intros q Hq. apply in_app_or in Hq as [Hq|[<-|[]]]; auto.
      * intros i q Hi Hq. rewrite nth_error_app1 in Hq by lia. eauto.
    + assert (Hlt : (bp < x)%Q).
      { apply Qnot_le_lt. intros Hle. apply Qle_bool_iff in Hle. congruence. }
      apply IH.
      * rewrite nth_error_app2 by lia. now rewrite Nat.sub_diag.
      * intros q Hq. apply in_app_or in Hq as [Hq|[<-|[]]].
        -- apply Qlt_le_weak. eapply Qle_lt_trans; [apply Hub|]; eassumption.
        -- apply Qle_refl.
      * intros i q Hi Hq. rewrite nth_error_app1 in Hq by assumption.
        eapply Qle_lt_trans; [|exact Hlt]. apply Hub.
        eapply nth_error_In; eassumption.
Qed.

(** [np.argmax] on a non-empty vector: the first index of a greatest
    entry, and that entry. *)
Lemma argmax_spec (xs : list Q) :
  xs <> [] ->
  exists j p,
    argmax xs = Ok (j, p) /\
    nth_error xs j = Some p /\
    (forall q, In q xs -> (q <= p)%Q) /\
    (forall i q, (i < j)%nat -> nth_error xs i = Some q -> (q < p)%Q).
Proof.
  destruct xs as [|x r]; [congruence | intros _].
  destruct (argmax_from_spec r [x] 0%nat x) as (H1 & H2 & H3).
  - reflexivity.
  - intros q [<-|[]]. apply Qle_refl.
  - intros i q Hi. lia.
  - cbn [List.length app] in H1, H2, H3. cbn [argmax].
    destruct (argmax_from 1 (0%nat, x) r) as [j p] eqn:E.
    exists j, p. auto.
Qed.

Section Server.
Variable Tensor : Type.
Variable MIN_PROBA : Q.
Variable LABEL_MAP : list string.
Variable MODEL_ARCH : arch.
Variable imread : string -> option ndarray.
Variable resize : ndarray -> nat * nat -> ndarray.
Variable preprocessor : arch -> ndarray -> Tensor.
Variable sess_run : Tensor -> list Q.

Abbreviation classify_here :=
  (classify_label Tensor MIN_PROBA LABEL_MAP MODEL_ARCH imread resize
     preprocessor sess_run).
Abbreviation for_labels_here :=
  (for_labels Tensor MIN_PROBA LABEL_MAP MODEL_ARCH imread resize
     preprocessor sess_run).
Abbreviation detect_faces_here :=
  (detect_faces Tensor MIN_PROBA LABEL_MAP MODEL_ARCH imread resize
     preprocessor sess_run).

(** A person box of an image that cannot be read. *)
Lemma classify_label_unreadable (obj : image_record) (l : label) :
  name l = "person"%string ->
  imread (image obj) = None ->
  classify_here obj l = Ok (set_face l PyNone).
Proof.
  intros Hp Hr. unfold classify_label. rewrite Hp, Hr. reflexivity.
Qed.

(** A person box whose region is empty. *)
Lemma classify_label_empty_roi (obj : image_record) (l : label) (img : ndarray) :
  name l = "person"%string ->
  imread (image obj) = Some img ->
  size (roi_of img l) = 0%nat ->
  classify_here obj l = Ok (set_face l PyNone).
Proof.
  intros Hp Hr Hsz. unfold classify_label. rewrite Hp, Hr.
  change (crop img (ymin (bbox l)) (ymax (bbox l))
            (xmin (bbox l)) (xmax (bbox l))) with (roi_of img l).
  apply Nat.eqb_eq in Hsz. rewrite Hsz. reflexivity.
Qed.

(** A box that is not a person is left alone. *)
Lemma classify_label_other (obj : image_record) (l : label) :
  name l <> "person"%string -> classify_here obj l = Ok l.
Proof.
  intros Hp. unfold classify_label.
  destruct (String.eqb_spec (name l) "person"); [contradiction | reflexivity].
Qed.

(** The labels of an image that cannot be read: every person box gets
    [face = None], and the loop does not raise. *)
Lemma for_labels_unreadable (obj : image_record) (ls : list label) :
  imread (image obj) = None ->
  for_labels_here obj ls =
  Ok (map (fun l => if String.eqb (name l) "person" then set_face l PyNone else l)
        ls).
Proof.
  intros Hr. induction ls as [|l r IH]; [reflexivity|].
  cbn [for_labels map]. rewrite IH.
  destruct (String.eqb_spec (name l) "person") as [Hp|Hp].
  - rewrite (classify_label_unreadable obj l Hp Hr). reflexivity.
  - rewrite (classify_label_other obj l Hp). reflexivity.
Qed.

(** C5.  For a person box: when the image is read and the region is
    not empty, with [p] the greatest entry of the (non-empty) prediction
    vector and [j] its first index, covered by the label map, the box gets
    [faceProba = p], and [face = LABEL_MAP[j]] if [p >= MIN_PROBA] and
    [face = None] otherwise; when the image cannot be read or the region
    is empty, the box gets [face = None] and [faceProba] is not written. *)
Theorem classify_label_decision (obj : image_record) (l : label) :
  name l = "person"%string ->
  (forall img,
      imread (image obj) = Some img ->
      size (roi_of img l) <> 0%nat ->
      let predictions :=
        sess_run (preprocessor MODEL_ARCH
                    (resize (roi_of img l) (input_size MODEL_ARCH))) in
      predictions <> [] ->
      (List.length predictions <= List.length LABEL_MAP)%nat ->
      exists j p person l',
        nth_error predictions j = Some p /\
        (forall q, In q predictions -> (q <= p)%Q) /\
        (forall i q, (i < j)%nat -> nth_error predictions i = Some q -> (q < p)%Q) /\
        nth_error LABEL_MAP j = Some person /\
        classify_here obj l = Ok l' /\
        name l' = name l /\ bbox l' = bbox l /\
        faceProba l' = Some p /\
        ((MIN_PROBA <= p)%Q -> face l' = Some (PyStr person)) /\
        ((p < MIN_PROBA)%Q -> face l' = Some PyNone)) /\
  ((imread (image obj) = None \/
    exists img, imread (image obj) = Some img /\ size (roi_of img l) = 0%nat) ->
   exists l',
     classify_here obj l = Ok l' /\
     name l' = name l /\ bbox l' = bbox l /\
     face l' = Some PyNone /\ faceProba l' = faceProba l).
Proof.
  intros Hp. split.
  - intros img Hr Hsz predictions Hne Hlen.
    destruct (argmax_spec predictions Hne) as (j & p & Ha & Hj & Hub & Hfirst).
    assert (Hjlen : (j < List.length LABEL_MAP)%nat).
    { assert (j < List.length predictions)%nat by (apply nth_error_Some; congruence).
      lia. }
    destruct (nth_error LABEL_MAP j) as [person|] eqn:El;
      [|apply nth_error_None in El; lia].
    exists j, p, person.
    eexists. split; [exact Hj|]. split; [exact Hub|]. split; [exact Hfirst|].
    split; [exact El|].
    unfold classify_label. rewrite Hp, Hr.
    change (crop img (ymin (bbox l)) (ymax (bbox l))
              (xmin (bbox l)) (xmax (bbox l))) with (roi_of img l).
    apply Nat.eqb_neq in Hsz. rewrite Hsz.
    fold predictions. rewrite Ha. cbn [rbind fst snd].
    unfold list_item. rewrite El. cbn [rbind].
    split; [reflexivity|]. cbn [set_faceProba set_face name bbox face faceProba].
    repeat split.
    + exact Hp.
    + intros Hge. apply Qle_bool_iff in Hge. now rewrite Hge.
    + intros Hlt. destruct (Qle_bool MIN_PROBA p) eqn:E; [|reflexivity].
      apply Qle_bool_iff in E. exfalso. exact (Qlt_not_le _ _ Hlt E).
  - intros [Hr|(img & Hr & Hsz)]; exists (set_face l PyNone).
    + rewrite (classify_label_unreadable obj l Hp Hr). repeat split.
    + rewrite (classify_label_empty_roi obj l img Hp Hr Hsz). repeat split.
Qed.

End Server.

Lemma classify_label_decision_witness :
  (exists l',
      classify_label nat (1 # 2) label_map VGG16 imread_ok resize_id prep unsure
        {| image := "ok.jpg"; labels := [person_box 0 0 50 50] |}
        (person_box 0 0 50 50) = Ok l' /\
      face l' = Some PyNone /\ faceProba l' = Some (42 # 100)%Q) /\
  (exists l',
      classify_label nat (1 # 2) label_map VGG16 imread_bad resize_id prep unsure
        {| image := "ok.jpg"; labels := [person_box 0 0 50 50] |}
        (person_box 0 0 50 50) = Ok l' /\
      face l' = Some PyNone /\ faceProba l' = None).
Proof.
  split.
  - destruct (classify_label_decision nat (1 # 2) label_map VGG16 imread_ok
                resize_id prep unsure
                {| image := "ok.jpg"; labels := [person_box 0 0 50 50] |}
                (person_box 0 0 50 50) eq_refl) as [Hread _].
    destruct (Hread img100 eq_refl) as
      (j & p & person & l' & Hj & Hub & _ & _ & Hc & _ & _ & Hfp & _ & Hlt).
    + vm_compute. discriminate.
    + discriminate.
    + simpl. lia.
    + exists l'. split; [exact Hc|].
      assert (Hp : p = (42 # 100)%Q).
      { destruct j as [|[|j]]; simpl in Hj.
        - congruence.
        - exfalso. inversion Hj; subst p.
          specialize (Hub (42 # 100)%Q (or_introl eq_refl)).
          vm_compute in Hub. now apply Hub.
        - destruct j; discriminate. }
      subst p. split; [|exact Hfp]. apply Hlt. reflexivity.
  - destruct (classify_label_decision nat (1 # 2) label_map VGG16 imread_bad
                resize_id prep unsure
                {| image := "ok.jpg"; labels := [person_box 0 0 50 50] |}
                (person_box 0 0 50 50) eq_refl) as [_ Hbad].
    destruct (Hbad (or_introl eq_refl)) as (l' & Hc & _ & _ & Hf & Hfp).
    exists l'. split; [exact Hc|]. split; [exact Hf | exact Hfp].
Defined.

End ClassifierProps.

(** ** Unreadable images and boxes outside the image, on both paths *)

Module BatchProps.
Import Py Img ScriptSpec PyFacts VoteFacts Examples.

(** *** Regions *)

Lemma slice_bound_range (n i : Z) : 0 <= n -> 0 <= slice_bound n i <= n.
Proof.
  intros Hn. unfold slice_bound. destruct (Z.ltb_spec i 0); lia.
Qed.

Lemma slice_len_degenerate (n i : Z) : slice_len n i i = 0%nat.
Proof. unfold slice_len. rewrite Z.sub_diag. reflexivity. Qed.

Lemma slice_len_beyond (n i j : Z) : 0 <= n -> n <= i -> slice_len n i j = 0%nat.
Proof.
  intros Hn Hi. unfold slice_len.
  pose proof (slice_bound_range n j Hn).
  assert (slice_bound n i = n).
  { unfold slice_bound. destruct (Z.ltb_spec i 0); lia. }
  lia.
Qed.

Lemma slice_len_stop_zero (n i : Z) : 0 <= n -> slice_len n i 0 = 0%nat.
Proof.
  intros Hn. unfold slice_len.
  pose proof (slice_bound_range n i Hn).
  assert (slice_bound n 0 = 0) by (unfold slice_bound; simpl; lia).
  lia.
Qed.

(** The region of a degenerate box, and of a box with non-negative stop
    coordinates that lies entirely outside the image, is empty. *)
Lemma roi_empty (img : ndarray) (l : label) :
  degenerate (bbox l) \/
  (0 <= xmax (bbox l) /\ 0 <= ymax (bbox l) /\
   outside (Z.of_nat (width img)) (Z.of_nat (height img)) (bbox l)) ->
  size (roi_of img l) = 0%nat.
Proof.
  unfold size, roi_of, crop, degenerate, outside. cbn [height width].
  pose proof (Nat2Z.is_nonneg (width img)) as Hw.
  pose proof (Nat2Z.is_nonneg (height img)) as Hh.
  intros [[Hx|Hy]|(Hx0 & Hy0 & [Hx|[Hy|[Hx|Hy]]])].
  - rewrite Hx, slice_len_degenerate. lia.
  - rewrite Hy, slice_len_degenerate. lia.
  - assert (xmax (bbox l) = 0) as -> by lia.
    rewrite slice_len_stop_zero by assumption. lia.
  - assert (ymax (bbox l) = 0) as -> by lia.
    rewrite slice_len_stop_zero by assumption. lia.
  - rewrite (slice_len_beyond _ (xmin (bbox l))) by assumption. lia.
  - rewrite (slice_len_beyond _ (ymin (bbox l))) by assumption. lia.
Qed.

Section Paths.
Variable Enc : Type.
Variable Gray : Type.
Variable Tensor : Type.
Variable face_distance : Enc -> Enc -> Q.
Variable imread : string -> option ndarray.
Variable face_locations : ndarray -> nat -> string -> list FaceDetRec.face_location.
Variable face_encodings : ndarray -> list FaceDetRec.face_location -> nat -> list Enc.
Variable cvtColor_BGR2GRAY : ndarray -> Gray.
Variable Laplacian_var : Gray -> Q.
Variable data : FaceDetRec.gallery Enc.
Variable MIN_PROBA : Q.
Variable LABEL_MAP : list string.
Variable MODEL_ARCH : PersonClassifier.arch.
Variable resize : ndarray -> nat * nat -> ndarray.
Variable preprocessor : PersonClassifier.arch -> ndarray -> Tensor.
Variable sess_run : Tensor -> list Q.

(** Both paths write [face = None] onto a person box that is degenerate
    or, with non-negative stop coordinates, entirely outside the image,
    and neither raises. *)
Lemma empty_region_no_decision (name_count : dict) (obj : image_record)
    (img : ndarray) (l : label) (s : FaceDetRec.state) :
  name l = "person"%string ->
  imread (image obj) = Some img ->
  degenerate (bbox l) \/
  (0 <= xmax (bbox l) /\ 0 <= ymax (bbox l) /\
   outside (Z.of_nat (width img)) (Z.of_nat (height img)) (bbox l)) ->
  FaceDetRec.process_label Enc Gray face_distance face_locations face_encodings
    cvtColor_BGR2GRAY Laplacian_var data name_count img l s
  = (Ok (set_face l PyNone), s) /\
  PersonClassifier.classify_label Tensor MIN_PROBA LABEL_MAP MODEL_ARCH imread
    resize preprocessor sess_run obj l
  = Ok (set_face l PyNone).
Proof.
  intros Hp Hr Hbox. pose proof (roi_empty img l Hbox) as Hsz. split.
  - now apply ScriptProps.process_label_empty_roi.
  - now apply (ClassifierProps.classify_label_empty_roi _ _ _ _ _ _ _ _ obj l img).
Qed.

(** The script stops with [AttributeError] at the first image that
    cannot be read, whatever else the batch holds. *)
Lemma main_unreadable (obj : image_record) (rest : list image_record) :
  imread (image obj) = None ->
  fst (FaceDetRec.main Enc Gray face_distance imread face_locations
         face_encodings cvtColor_BGR2GRAY Laplacian_var data (obj :: rest))
  = Raise AttributeError.
Proof.
  intros Hr. cbn [FaceDetRec.main]. unfold FaceDetRec.bind.
  destruct (count_names_spec (FaceDetRec.names data) FaceDetRec.initial_state)
    as (nc & s' & -> & _).
  cbn [FaceDetRec.for_images]. unfold FaceDetRec.bind, FaceDetRec.process_image.
  rewrite Hr. reflexivity.
Qed.

(** The server does not raise on an image that cannot be read: it goes
    on with the next image. *)
Lemma detect_faces_unreadable (obj : image_record) (rest : list image_record) :
  imread (image obj) = None ->
  PersonClassifier.detect_faces Tensor MIN_PROBA LABEL_MAP MODEL_ARCH imread
    resize preprocessor sess_run (obj :: rest)
  = rbind (PersonClassifier.detect_faces Tensor MIN_PROBA LABEL_MAP MODEL_ARCH
             imread resize preprocessor sess_run rest)
      (fun r' =>
         Ok ({| image := image obj;
                labels :=
                  map (fun l => if String.eqb (name l) "person"
                                then set_face l PyNone else l) (labels obj) |}
               :: r')).
Proof.
  intros Hr. cbn [PersonClassifier.detect_faces].
  rewrite (ClassifierProps.for_labels_unreadable _ _ _ _ _ _ _ _ obj (labels obj) Hr).
  reflexivity.
Qed.

End Paths.

(** C3, where the code departs from the specification.  On a batch whose
    first image cannot be read, the classifier server marks the person
    box of that image with [face = None], leaves the other box alone and
    classifies the next image; the script of the embedding path raises
    [AttributeError] at [img.shape] and returns nothing. *)
Theorem unreadable_image_aborts_script :
  let batch :=
    [{| image := "bad.jpg"; labels := [person_box 0 0 50 50; car_box] |};
     {| image := "ok.jpg"; labels := [person_box 0 0 50 50] |}] in
  imread_one_bad "bad.jpg" = None /\
  PersonClassifier.detect_faces nat (1 # 2) label_map PersonClassifier.VGG16
    imread_one_bad resize_id prep sure batch
  = Ok [{| image := "bad.jpg";
           labels := [set_face (person_box 0 0 50 50) PyNone; car_box] |};
        {| image := "ok.jpg";
           labels := [set_faceProba (set_face (person_box 0 0 50 50) (PyStr "alice"))
                        (9 # 10)] |}] /\
  fst (FaceDetRec.main Q nat dist imread_one_bad one_face encode_each to_gray
         sharp gallery_A batch)
  = Raise AttributeError.
Proof. repeat split; vm_compute; reflexivity. Qed.

(** C7, where the code departs from the specification.  In an image of 100
    by 100 pixels the box from (-50, -50) to (-10, -10) lies entirely
    outside the image, yet its slice is the 40 by 40 region counted from
    the far edges: the region is not empty, and both paths go on to
    identify a person in it. *)
Theorem negative_box_wraps_around :
  let l := person_box (-50) (-50) (-10) (-10) in
  let batch := [{| image := "ok.jpg"; labels := [l] |}] in
  outside 100 100 (bbox l) /\
  size (roi_of img100 l) = 4800%nat /\
  PersonClassifier.detect_faces nat (1 # 2) label_map PersonClassifier.VGG16
    imread_ok resize_id prep sure batch
  = Ok [{| image := "ok.jpg";
           labels := [set_faceProba (set_face l (PyStr "alice")) (9 # 10)] |}] /\
  fst (FaceDetRec.main Q nat dist imread_ok one_face encode_each to_gray sharp
         gallery_A batch)
  = Ok [{| image := "ok.jpg"; labels := [set_face l (PyStr "Alice")] |}].
Proof.
  intros l batch. split; [left; simpl; lia|].
  repeat split; vm_compute; reflexivity.
Qed.

End BatchProps.

(** ** More facts about the tallies *)

Module MoreFacts.
Import Py Img FaceDetRec VoteSpec BatchSpec PyFacts VoteFacts.

Lemma dict_keys_set_incl (d : dict) (k k' : string) (v : Z) :
  In k' (dict_keys (dict_set d k v)) -> k' = k \/ In k' (dict_keys d).
Proof.
  destruct (in_dec string_dec k (dict_keys d)) as [Hin|Hnin].
  - rewrite dict_keys_set_in by assumption. auto.
  - rewrite dict_keys_set_notin by assumption. intros H.
    apply in_app_or in H as [H|[<-|[]]]; auto.
Qed.

Lemma dict_keys_set_mono (d : dict) (k k' : string) (v : Z) :
  In k' (dict_keys d) -> In k' (dict_keys (dict_set d k v)).
Proof.
  intros H. destruct (in_dec string_dec k (dict_keys d)) as [Hin|Hnin].
  - now rewrite dict_keys_set_in.
  - rewrite dict_keys_set_notin by assumption. apply in_or_app. now left.
Qed.

(** The keys of [counts] after the loop of lines 161-163 are keys it had
    before or names of the gallery. *)
Lemma count_matched_keys (nms : list string) (idxs : list nat) :
  forall d counts,
    count_matched nms idxs d = Ok counts ->
    forall k, In k (dict_keys counts) -> In k (dict_keys d) \/ In k nms.
Proof.
  induction idxs as [|i r IH]; intros d counts H k Hk.
  - inversion H; subst. now left.
  - cbn [count_matched] in H. unfold list_item in H.
    destruct (nth_error nms i) as [n|] eqn:En; cbn [rbind] in H; [|discriminate].
    destruct (IH _ _ H k Hk) as [Hd|Hn]; [|now right].
    apply dict_keys_set_incl in Hd as [->|Hd]; [|now left].
    right. eapply nth_error_In; eassumption.
Qed.

Lemma count_matched_keys_mono (nms : list string) (idxs : list nat) :
  forall d counts,
    count_matched nms idxs d = Ok counts ->
    forall k, In k (dict_keys d) -> In k (dict_keys counts).
Proof.
  induction idxs as [|i r IH]; intros d counts H k Hk.
  - inversion H; subst. assumption.
  - cbn [count_matched] in H. unfold list_item in H.
    destruct (nth_error nms i) as [n|] eqn:En; cbn [rbind] in H; [|discriminate].
    apply (IH _ _ H). now apply dict_keys_set_mono.
Qed.

(** The loop raises [IndexError] at the first index beyond the names,
    and only then. *)
Lemma count_matched_in_range (nms : list string) (idxs : list nat) :
  Forall (fun i => (i < List.length nms)%nat) idxs ->
  forall d, exists counts, count_matched nms idxs d = Ok counts.
Proof.
  induction 1 as [|i r Hi _ IH]; intros d.
  - eexists. reflexivity.
  - cbn [count_matched]. unfold list_item.
    destruct (nth_error nms i) as [n|] eqn:En;
      [|apply nth_error_None in En; lia].
    cbn [rbind]. apply IH.
Qed.

Lemma count_matched_out_of_range (nms : list string) (idxs : list nat) :
  Exists (fun i => (List.length nms <= i)%nat) idxs ->
  forall d, count_matched nms idxs d = Raise IndexError.
Proof.
  induction idxs as [|i r IH]; intros H d; [inversion H|].
  cbn [count_matched]. unfold list_item.
  destruct (nth_error nms i) as [n|] eqn:En; [|reflexivity].
  cbn [rbind]. apply IH. inversion H as [? ? Hi|]; subst; [|assumption].
  assert (nth_error nms i <> None) by congruence.
  apply nth_error_Some in H0. lia.
Qed.

Lemma In_combine_nth {A B : Type} (l1 : list A) :
  forall (l2 : list B) (a : A) (b : B),
    In (a, b) (combine l1 l2) <->
    exists i, nth_error l1 i = Some a /\ nth_error l2 i = Some b.
Proof.
  induction l1 as [|x l1 IH]; intros l2 a b.
  - simpl. split; [tauto|]. intros ([|i] & H & _); discriminate.
  - destruct l2 as [|y l2].
    + simpl. split; [tauto|]. intros ([|i] & _ & H); discriminate.
    + simpl. rewrite IH. split.
      * intros [H|(i & H1 & H2)].
        -- inversion H; subst. exists 0%nat. auto.
        -- exists (S i). auto.
      * intros ([|i] & H1 & H2); simpl in *.
        -- left. congruence.
        -- right. eauto.
Qed.

(** The matched indexes are the positions of [True] in [matches]. *)
Lemma In_matchedIdxs (matches : list bool) (i : nat) :
  In i (matchedIdxs matches) <-> nth_error matches i = Some true.
Proof.
  unfold matchedIdxs, enumerate. rewrite in_map_iff. split.
  - intros ([j b] & Hj & Hin). simpl in Hj. subst j.
    apply filter_In in Hin as [Hin Hb]. simpl in Hb. subst b.
    apply In_combine_nth in Hin as (k & Hk & Hm).
    rewrite nth_error_seq in Hk.
    destruct (k <? List.length matches)%nat; inversion Hk; subst. assumption.
  - intros H. exists (i, true). split; [reflexivity|].
    apply filter_In. split; [|reflexivity].
    apply In_combine_nth. exists i. split; [|assumption].
    rewrite nth_error_seq.
    assert (nth_error matches i <> None) by congruence.
    apply nth_error_Some in H0. apply Nat.ltb_lt in H0. now rewrite H0.
Qed.

(** The matched names are the names of the gallery entries at the
    positions of [True]. *)
Lemma matched_names_nth (nms : list string) (matches : list bool) (n : string) :
  In n (matched_names nms matches) <->
  exists i, nth_error nms i = Some n /\ nth_error matches i = Some true.
Proof.
  unfold matched_names. rewrite in_map_iff. split.
  - intros ([b n'] & Hn & Hin). simpl in Hn. subst n'.
    apply filter_In in Hin as [Hin Hb]. simpl in Hb. subst b.
    apply In_combine_nth in Hin as (i & H1 & H2). eauto.
  - intros (i & H1 & H2). exists (true, n). split; [reflexivity|].
    apply filter_In. split; [|reflexivity].
    apply In_combine_nth. eauto.
Qed.

Lemma votes_pos_iff (nms : list string) (matches : list bool) (L : string) :
  0 < votes nms matches L <-> In L (matched_names nms matches).
Proof.
  unfold votes. rewrite (count_occ_In string_dec). lia.
Qed.

Lemma votes_nonneg (nms : list string) (matches : list bool) (L : string) :
  0 <= votes nms matches L.
Proof. unfold votes. lia. Qed.

Lemma population_nonneg (nms : list string) (L : string) : 0 <= population nms L.
Proof. unfold population. lia. Qed.

(** Fewer matches, fewer votes. *)
Lemma votes_mono (nms : list string) (m m' : list bool) (L : string) :
  Forall2 (fun b' b => b' = true -> b = true) m' m ->
  votes nms m' L <= votes nms m L.
Proof.
  unfold votes, matched_names. intros H. apply inj_le.
  revert nms. induction H as [|b' b m' m Hb _ IH]; intros nms; [reflexivity|].
  destruct nms as [|n nms]; [reflexivity|].
  cbn [combine filter fst]. specialize (IH nms).
  destruct b'; [rewrite (Hb eq_refl)|destruct b]; cbn [map snd count_occ];
    try destruct (string_dec n L); lia.
Qed.

Lemma max_key_In (d : dict) (w : string) :
  max_key d = Ok w -> In w (dict_keys d).
Proof.
  intros H. assert (Hne : d <> []) by (intros ->; discriminate).
  destruct (max_key_spec d Hne) as (k & v & pre & post & Hk & Hd & _).
  rewrite H in Hk. inversion Hk; subst k. rewrite Hd.
  unfold dict_keys. rewrite map_app. apply in_or_app. right. now left.
Qed.

(** A vote that does not raise decides [None] or a name of the gallery. *)
Lemma decide_domain (margin : Q) (nms : list string) (name_count : dict)
    (matches : list bool) (v : value) :
  decide margin nms name_count matches = Ok v -> face_domain nms v.
Proof.
  unfold decide, face_domain.
  destruct (existsb (fun b => b) matches); [|intros H; inversion H; auto].
  destruct (count_matched nms (matchedIdxs matches) (dict_zero nms))
    as [counts|] eqn:Ec; cbn [rbind]; [|discriminate].
  destruct (max_values (dict_values counts)); cbn [rbind]; [|discriminate].
  destruct (max_key counts) as [w|] eqn:Ew; cbn [rbind]; [|discriminate].
  destruct (name_thresholds margin name_count w a counts); cbn [rbind];
    [|discriminate].
  intros H. inversion H; subst. destruct (all a0); [|now left].
  right. right. exists w. split; [|reflexivity].
  apply max_key_In in Ew.
  destruct (count_matched_keys _ _ _ _ Ec w Ew) as [Hk|Hk]; [|assumption].
  now apply dict_zero_keys.
Qed.

(** With the [name_count] of the script, a vote raises exactly when a
    matched index lies beyond the names. *)
Lemma decide_in_range (margin : Q) (nms : list string) (name_count : dict)
    (matches : list bool) :
  (forall L, In L nms -> dict_get name_count L = Some (population nms L)) ->
  (forall i, nth_error matches i = Some true -> (i < List.length nms)%nat) ->
  exists v, decide margin nms name_count matches = Ok v.
Proof.
  intros Hnc Hrange. unfold decide.
  destruct (existsb (fun b => b) matches) eqn:Ex; [|eauto].
  destruct (count_matched_in_range nms (matchedIdxs matches)) with (d := dict_zero nms)
    as [counts Hc].
  { apply Forall_forall. intros i Hi. now apply Hrange, In_matchedIdxs. }
  rewrite Hc. cbn [rbind].
  assert (Hne : counts <> []).
  { apply existsb_id_In in Ex. apply In_nth_error in Ex as [i Hi].
    pose proof (Hrange i Hi) as Hlt.
    destruct (nth_error nms i) as [n|] eqn:En;
      [|apply nth_error_None in En; lia].
    assert (Hk : In n (dict_keys counts)).
    { apply (count_matched_keys_mono _ _ _ _ Hc). apply dict_zero_keys.
      eapply nth_error_In; eassumption. }
    intros ->. destruct Hk. }
  destruct (max_key_spec counts Hne) as (w & v & pre & post & Hw & Hd & Hpre & Hpost).
  rewrite (max_values_max_key counts w v pre post Hd Hpre Hpost), Hw.
  cbn [rbind].
  assert (Hwn : In w nms).
  { apply max_key_In in Hw.
    destruct (count_matched_keys _ _ _ _ Hc w Hw) as [Hk|Hk]; [|assumption].
    now apply dict_zero_keys. }
  destruct (name_thresholds_spec margin name_count w v (population nms w) counts
              (Hnc w Hwn)) as (ths & -> & _).
  cbn [rbind]. eauto.
Qed.

Lemma decide_out_of_range (margin : Q) (nms : list string) (name_count : dict)
    (matches : list bool) (i : nat) :
  nth_error matches i = Some true ->
  (List.length nms <= i)%nat ->
  decide margin nms name_count matches = Raise IndexError.
Proof.
  intros Hi Hle. unfold decide.
  assert (Hex : existsb (fun b => b) matches = true).
  { apply existsb_id_In. eapply nth_error_In; eassumption. }
  rewrite Hex, count_matched_out_of_range; [reflexivity|].
  apply Exists_exists. exists i. split; [|assumption].
  now apply In_matchedIdxs.
Qed.

End MoreFacts.

(** ** Further properties of the gallery tally and of the resolver *)

Module ResolverExtras.
Import Py Img FaceDetRec VoteSpec BatchSpec PyFacts VoteFacts MoreFacts.
Import Examples MoreExamples.

Lemma sum_values_set (d : dict) (k : string) (v v' : Z) :
  dict_get d k = Some v ->
  sum_values (dict_set d k v') = sum_values d - v + v'.
Proof.
  unfold sum_values, dict_values.
  induction d as [|[k0 v0] r IH]; cbn [dict_get dict_set]; [discriminate|].
  destruct (String.eqb k0 k); cbn [map snd fold_right].
  - intros H. inversion H; subst. lia.
  - intros H. rewrite (IH H). lia.
Qed.

Lemma sum_values_bump_fold (ns : list string) :
  forall d,
    (forall n, In n ns -> In n (dict_keys d)) ->
    sum_values (fold_left bump ns d) = sum_values d + Z.of_nat (List.length ns).
Proof.
  induction ns as [|n r IH]; intros d H; cbn [fold_left List.length]; [lia|].
  assert (Hn : In n (dict_keys d)) by (apply H; now left).
  apply dict_get_keys in Hn as [v Hv].
  rewrite IH.
  - unfold bump, dict_get_default. rewrite Hv.
    rewrite (sum_values_set d n v (v + 1) Hv). lia.
  - intros m Hm. unfold bump. apply dict_keys_set_mono. apply H. now right.
Qed.

Lemma sum_values_zero (nms : list string) : sum_values (dict_zero nms) = 0.
Proof.
  assert (H : forall k v, In (k, v) (dict_zero nms) -> v = 0).
  { intros k v Hin. apply dict_get_In in Hin; [|apply dict_zero_NoDup].
    unfold dict_zero in Hin. rewrite zero_fold_get in Hin.
    destruct (in_dec string_dec k nms); simpl in Hin; congruence. }
  unfold sum_values, dict_values.
  induction (dict_zero nms) as [|[k v] r IH]; [reflexivity|].
  cbn [map snd fold_right]. rewrite IH.
  - rewrite (H k v); [reflexivity | now left].
  - intros k' v' Hin. apply (H k' v'). now right.
Qed.

(** The loop of line 67 leaves the last gallery name in [name]. *)
Lemma count_names_state (nms : list string) :
  forall d d' s s',
    count_names nms d s = (Ok d', s') ->
    face_encodings_calls s' = face_encodings_calls s /\
    var_name s' = match nms with
                  | [] => var_name s
                  | _ => Some (PyStr (last nms ""%string))
                  end.
Proof.
  induction nms as [|n r IH]; intros d d' s s' H.
  - inversion H; subst. auto.
  - cbn [count_names] in H. unfold bind, assign_name, lift in H.
    destruct (dict_item d n) as [v|]; [|discriminate].
    apply IH in H as [Hc Hv]. cbn [face_encodings_calls var_name] in Hc, Hv.
    split; [assumption|]. rewrite Hv. destruct r; reflexivity.
Qed.

(** X1.  Lines 66-68 never raise and count every gallery entry once:
    [name_count] has exactly the distinct gallery names as keys, maps each
    to the number of entries that bear it, and its values add up to the
    size of the gallery; the loop calls no collaborator and leaves the
    last gallery name in the variable [name]. *)
Theorem name_count_counts (nms : list string) (s : state) :
  exists name_count s',
    count_names nms (dict_zero nms) s = (Ok name_count, s') /\
    NoDup (dict_keys name_count) /\
    (forall L, In L (dict_keys name_count) <-> In L nms) /\
    (forall L, In L nms -> dict_get name_count L = Some (population nms L)) /\
    sum_values name_count = Z.of_nat (List.length nms) /\
    face_encodings_calls s' = face_encodings_calls s /\
    var_name s' = match nms with
                  | [] => var_name s
                  | _ => Some (PyStr (last nms ""%string))
                  end.
Proof.
  assert (Hk : forall n, In n nms -> In n (dict_keys (dict_zero nms))).
  { intros n Hn. now apply dict_zero_keys. }
  destruct (count_names_fold nms (dict_zero nms) s Hk) as [s' Hs'].
  exists (fold_left bump nms (dict_zero nms)), s'.
  assert (Hkeys : dict_keys (fold_left bump nms (dict_zero nms))
                  = dict_keys (dict_zero nms)) by now apply bump_fold_keys.
  split; [assumption|]. split; [|split; [|split; [|split]]].
  - rewrite Hkeys. apply dict_zero_NoDup.
  - intros L. rewrite Hkeys. apply dict_zero_keys.
  - intros L HL. rewrite bump_fold_get. unfold population, dict_get_default.
    rewrite (dict_zero_get nms L HL).
    destruct (count_occ string_dec nms L); f_equal; lia.
  - rewrite sum_values_bump_fold by assumption. rewrite sum_values_zero. lia.
  - exact (count_names_state nms _ _ _ _ Hs').
Qed.

Section Resolver.
Variable Enc : Type.
Variable face_distance : Enc -> Enc -> Q.

Abbreviation compare_here := (compare_faces Enc face_distance).
Abbreviation resolve_at := (resolve Enc face_distance).

Lemma name_count_population (nms : list string) (name_count : dict) (s : state) :
  fst (count_names nms (dict_zero nms) s) = Ok name_count ->
  forall L, In L nms -> dict_get name_count L = Some (population nms L).
Proof.
  intros Hnc. destruct (count_names_spec nms s) as (nc & s' & Hcn & Hpop).
  rewrite Hcn in Hnc. simpl in Hnc. inversion Hnc; subst. exact Hpop.
Qed.

Lemma compare_faces_nth (tolerance : Q) (known : list Enc) (e : Enc) (i : nat) :
  nth_error (compare_here known e tolerance) i = Some true <->
  exists k, nth_error known i = Some k /\ (face_distance k e <= tolerance)%Q.
Proof.
  unfold compare_faces. rewrite nth_error_map.
  destruct (nth_error known i) as [k|]; simpl.
  - split.
    + intros H. inversion H as [Hb]. exists k. split; [reflexivity|].
      now apply Qle_bool_iff.
    + intros (k' & Hk & Hle). inversion Hk; subst k'.
      apply Qle_bool_iff in Hle. now rewrite Hle.
  - split; [discriminate | intros (k & Hk & _); discriminate].
Qed.

(** X2.  The resolver raises exactly when the face matches a gallery
    encoding that has no name: if some encoding at an index beyond
    [data['names']] is within the tolerance, the outcome is [IndexError]
    (line 162); if every matching encoding has a name, the resolver
    returns a value. *)
Theorem resolve_index_error (tolerance margin : Q) (data : gallery Enc)
    (name_count : dict) (e : Enc) (s : state) :
  fst (count_names (names data) (dict_zero (names data)) s) = Ok name_count ->
  ((exists i k, nth_error (encodings data) i = Some k /\
                (face_distance k e <= tolerance)%Q /\
                (List.length (names data) <= i)%nat) ->
   resolve_at tolerance margin data name_count e = Raise IndexError) /\
  ((forall i k, nth_error (encodings data) i = Some k ->
                (face_distance k e <= tolerance)%Q ->
                (i < List.length (names data))%nat) ->
   exists v, resolve_at tolerance margin data name_count e = Ok v).
Proof.
  intros Hnc. split.
  - intros (i & k & Hk & Hle & Hi). unfold resolve.
    apply (decide_out_of_range margin _ _ _ i); [|assumption].
    apply compare_faces_nth. eauto.
  - intros Hrange. unfold resolve. apply decide_in_range.
    + exact (name_count_population _ _ s Hnc).
    + intros i Hi. apply compare_faces_nth in Hi as (k & Hk & Hle). eauto.
Qed.

(** X3.  The resolver never names a person none of whose gallery
    embeddings matched: an outcome that is a string is either
    ['Unknown'] with no gallery entry within the tolerance, or the name of
    a gallery entry whose own embedding is within the tolerance of the
    face. *)
Theorem resolve_names_a_match (tolerance margin : Q) (data : gallery Enc)
    (name_count : dict) (e : Enc) (s : state) (n : string) :
  (List.length (encodings data) <= List.length (names data))%nat ->
  fst (count_names (names data) (dict_zero (names data)) s) = Ok name_count ->
  resolve_at tolerance margin data name_count e = Ok (PyStr n) ->
  (n = "Unknown"%string /\
   forall k, In k (encodings data) -> ~ (face_distance k e <= tolerance)%Q) \/
  (exists i k, nth_error (names data) i = Some n /\
               nth_error (encodings data) i = Some k /\
               (face_distance k e <= tolerance)%Q).
Proof.
  intros Hlen Hnc Hr.
  set (matches := compare_here (encodings data) e tolerance).
  destruct (existsb (fun b => b) matches) eqn:Ex.
  - right. apply existsb_id_In in Ex.
    destruct (ResolverProps.resolve_vote_spec Enc face_distance tolerance margin
                data name_count e s Hlen Hnc Ex) as (w & Hw & Hyes & Hno).
    fold matches in Hw, Hyes, Hno.
    destruct (margin_ok_decidable margin (names data) matches w) as [Hm|Hm];
      [|rewrite (Hno Hm) in Hr; discriminate].
    rewrite (Hyes Hm) in Hr. inversion Hr; subst n. clear Hr.
    assert (Hpos : 0 < votes (names data) matches w).
    { apply In_nth_error in Ex as [i Hi].
      assert (Hi' : (i < List.length matches)%nat).
      { apply nth_error_Some. congruence. }
      unfold matches in Hi'. rewrite ResolverProps.compare_faces_length in Hi'.
      destruct (nth_error (names data) i) as [L|] eqn:EL;
        [|apply nth_error_None in EL; lia].
      assert (HL : In L (matched_names (names data) matches)).
      { apply matched_names_nth. eauto. }
      apply votes_pos_iff in HL.
      pose proof (is_winner_max _ _ _ L Hw (nth_error_In _ _ EL)). lia. }
    apply votes_pos_iff, matched_names_nth in Hpos as (j & Hj & Hm').
    apply compare_faces_nth in Hm' as (k & Hk & Hle). eauto.
  - left. unfold resolve, decide in Hr. fold matches in Hr. rewrite Ex in Hr.
    inversion Hr; subst n. split; [reflexivity|].
    intros k Hk Hle.
    assert (In true matches).
    { apply ResolverProps.compare_faces_true. eauto. }
    apply existsb_id_In in H. congruence.
Qed.

(** X4.  With a non-negative margin an accepted identity has strictly
    more votes than every other gallery label, so two labels tied for the
    most votes are never resolved to either: the outcome is [None]. *)
Theorem resolve_needs_strict_lead (tolerance margin : Q) (data : gallery Enc)
    (name_count : dict) (e : Enc) (s : state) :
  (List.length (encodings data) <= List.length (names data))%nat ->
  fst (count_names (names data) (dict_zero (names data)) s) = Ok name_count ->
  (0 <= margin)%Q ->
  In true (compare_here (encodings data) e tolerance) ->
  let matches := compare_here (encodings data) e tolerance in
  (forall w,
      resolve_at tolerance margin data name_count e = Ok (PyStr w) ->
      In w (names data) /\
      forall L, In L (names data) -> L <> w ->
                votes (names data) matches L < votes (names data) matches w) /\
  (forall L1 L2,
      In L1 (names data) -> In L2 (names data) -> L1 <> L2 ->
      votes (names data) matches L1 = votes (names data) matches L2 ->
      (forall L, In L (names data) ->
                 votes (names data) matches L <= votes (names data) matches L1) ->
      resolve_at tolerance margin data name_count e = Ok PyNone).
Proof.
  intros Hlen Hnc Hm Hex matches.
  destruct (ResolverProps.resolve_vote_spec Enc face_distance tolerance margin
              data name_count e s Hlen Hnc Hex) as (w0 & Hw & Hyes & Hno).
  fold matches in Hw, Hyes, Hno.
  assert (Hlead : margin_ok margin (names data) matches w0 ->
                  forall L, In L (names data) -> L <> w0 ->
                            votes (names data) matches L
                            < votes (names data) matches w0).
  { intros Hok L HL Hne. specialize (Hok L HL Hne).
    assert (Hge : (0 <= margin * inject_Z (population (names data) w0))%Q).
    { apply Qmult_le_0_compat; [assumption|].
      pose proof (population_nonneg (names data) w0).
      unfold Qle. simpl. lia. }
    assert (Hlt : (inject_Z (votes (names data) matches L)
                   < inject_Z (votes (names data) matches w0))%Q).
    { eapply Qle_lt_trans; [|exact Hok].
      rewrite <- (Qplus_0_r (inject_Z (votes (names data) matches L))) at 1.
      now apply Qplus_le_r. }
    unfold Qlt in Hlt. simpl in Hlt. lia. }
  split.
  - intros w Hr.
    destruct (margin_ok_decidable margin (names data) matches w0) as [Hok|Hok];
      [|rewrite (Hno Hok) in Hr; discriminate].
    rewrite (Hyes Hok) in Hr. inversion Hr; subst w.
    split; [exact (is_winner_In _ _ _ Hw) | exact (Hlead Hok)].
  - intros L1 L2 H1 H2 Hne Heq Hmax. apply Hno. intros Hok.
    pose proof (Hlead Hok) as Hl.
    destruct (string_dec L1 w0) as [->|Hn1].
    + specialize (Hl L2 H2 (not_eq_sym Hne)). lia.
    + specialize (Hl L1 H1 Hn1).
      specialize (Hmax w0 (is_winner_In _ _ _ Hw)). lia.
Qed.

(** X5.  A gallery that holds a single identity accepts it as soon as
    one entry matches, whatever the margin: the margin test has no
    competitor to fail against. *)
Theorem resolve_single_identity (tolerance margin : Q) (data : gallery Enc)
    (name_count : dict) (e : Enc) (s : state) (n : string) :
  (List.length (encodings data) <= List.length (names data))%nat ->
  fst (count_names (names data) (dict_zero (names data)) s) = Ok name_count ->
  (forall L, In L (names data) -> L = n) ->
  (exists k, In k (encodings data) /\ (face_distance k e <= tolerance)%Q) ->
  resolve_at tolerance margin data name_count e = Ok (PyStr n).
Proof.
  intros Hlen Hnc Hone Hex.
  apply ResolverProps.compare_faces_true in Hex.
  destruct (ResolverProps.resolve_vote_spec Enc face_distance tolerance margin
              data name_count e s Hlen Hnc Hex) as (w & Hw & Hyes & _).
  assert (w = n) as -> by (apply Hone; exact (is_winner_In _ _ _ Hw)).
  apply Hyes. intros L HL Hne. contradiction Hne. now apply Hone.
Qed.

(** X6.  Lowering the comparison tolerance can only remove matches:
    every gallery label gets at most as many votes at a tolerance
    [t' <= t] as at [t], and a face that is ['Unknown'] for lack of a match
    at [t] is ['Unknown'] at [t']. *)
Theorem tolerance_stricter (t t' margin : Q) (data : gallery Enc)
    (name_count : dict) (e : Enc) :
  (t' <= t)%Q ->
  (forall L,
      votes (names data) (compare_here (encodings data) e t') L
      <= votes (names data) (compare_here (encodings data) e t) L) /\
  ((forall k, In k (encodings data) -> ~ (face_distance k e <= t)%Q) ->
   resolve_at t' margin data name_count e = Ok (PyStr "Unknown")).
Proof.
  intros Ht. split.
  - intros L. apply votes_mono. unfold compare_faces.
    induction (encodings data) as [|k r IH]; cbn [map]; constructor; [|exact IH].
    intros Hb. apply Qle_bool_iff in Hb. apply Qle_bool_iff.
    eapply Qle_trans; eassumption.
  - intros Hno. apply ResolverProps.resolve_no_match.
    intros k Hk Hle. apply (Hno k Hk). eapply Qle_trans; eassumption.
Qed.

End Resolver.

Lemma resolve_index_error_witness :
  resolve Q dist COMPARE_FACES_TOLERANCE NAME_THRESHOLD gallery_short
    name_count_1 probe = Raise IndexError /\
  exists v,
    resolve Q dist COMPARE_FACES_TOLERANCE NAME_THRESHOLD gallery_A
      name_count_10_2 probe = Ok v.
Proof.
  split.
  - destruct (resolve_index_error Q dist COMPARE_FACES_TOLERANCE NAME_THRESHOLD
                gallery_short name_count_1 probe initial_state eq_refl)
      as [Hraise _].
    apply Hraise. exists 1%nat, near.
    split; [reflexivity|]. split; [vm_compute; discriminate | simpl; lia].
  - destruct (resolve_index_error Q dist COMPARE_FACES_TOLERANCE NAME_THRESHOLD
                gallery_A name_count_10_2 probe initial_state eq_refl)
      as [_ Hok].
    apply Hok. intros i k Hi _.
    assert (Hn : nth_error (encodings gallery_A) i <> None) by congruence.
    apply nth_error_Some in Hn. simpl in Hn. simpl. lia.
Defined.

Lemma resolve_names_a_match_witness :
  ("Alice"%string = "Unknown"%string /\
   forall k, In k (encodings gallery_A) ->
             ~ (dist k probe <= COMPARE_FACES_TOLERANCE)%Q) \/
  (exists i k, nth_error (names gallery_A) i = Some "Alice"%string /\
               nth_error (encodings gallery_A) i = Some k /\
               (dist k probe <= COMPARE_FACES_TOLERANCE)%Q).
Proof.
  apply (resolve_names_a_match Q dist COMPARE_FACES_TOLERANCE NAME_THRESHOLD
           gallery_A name_count_10_2 probe initial_state "Alice");
    [simpl; lia | reflexivity | reflexivity].
Defined.

Lemma resolve_needs_strict_lead_witness :
  resolve Q dist COMPARE_FACES_TOLERANCE NAME_THRESHOLD gallery_B
    name_count_5_5 probe = Ok PyNone /\
  forall L, In L (names gallery_A) -> L <> "Alice"%string ->
            votes (names gallery_A)
              (compare_faces Q dist (encodings gallery_A) probe
                 COMPARE_FACES_TOLERANCE) L
            < votes (names gallery_A)
                (compare_faces Q dist (encodings gallery_A) probe
                   COMPARE_FACES_TOLERANCE) "Alice".
Proof.
  split.
  - destruct (resolve_needs_strict_lead Q dist COMPARE_FACES_TOLERANCE
                NAME_THRESHOLD gallery_B name_count_5_5 probe initial_state)
      as [_ Htie];
      [simpl; lia | reflexivity | vm_compute; discriminate | simpl; auto |].
    apply (Htie "Alice"%string "Bob"%string);
      [simpl; auto | simpl; auto 10 | discriminate | reflexivity |].
    intros L HL. each_member HL; vm_compute; discriminate.
  - destruct (resolve_needs_strict_lead Q dist COMPARE_FACES_TOLERANCE
                NAME_THRESHOLD gallery_A name_count_10_2 probe initial_state)
      as [Hlead _];
      [simpl; lia | reflexivity | vm_compute; discriminate | simpl; auto |].
    apply (Hlead "Alice"%string). reflexivity.
Defined.

Lemma resolve_single_identity_witness :
  resolve Q dist COMPARE_FACES_TOLERANCE (100 # 1) gallery_single
    name_count_3 probe = Ok (PyStr "Alice").
Proof.
  apply (resolve_single_identity Q dist COMPARE_FACES_TOLERANCE (100 # 1)
           gallery_single name_count_3 probe initial_state "Alice").
  - simpl. lia.
  - reflexivity.
  - intros L HL. each_member HL; reflexivity.
  - exists near. split; [simpl; auto | vm_compute; discriminate].
Defined.

Lemma tolerance_stricter_witness :
  (forall L,
      votes (names gallery_A)
        (compare_faces Q dist (encodings gallery_A) probe (1 # 10)) L
      <= votes (names gallery_A)
           (compare_faces Q dist (encodings gallery_A) probe
              COMPARE_FACES_TOLERANCE) L) /\
  ((forall k, In k (encodings gallery_A) ->
              ~ (dist k probe <= COMPARE_FACES_TOLERANCE)%Q) ->
   resolve Q dist (1 # 10) NAME_THRESHOLD gallery_A name_count_10_2 probe
   = Ok (PyStr "Unknown")).
Proof.
  apply (tolerance_stricter Q dist COMPARE_FACES_TOLERANCE (1 # 10)
           NAME_THRESHOLD gallery_A name_count_10_2 probe).
  vm_compute. discriminate.
Defined.

End ResolverExtras.

(** ** Further properties of the face_det_rec.py script on a batch *)

Module ScriptExtras.
Import Py Img FaceDetRec VoteSpec ScriptSpec BatchSpec PyFacts VoteFacts MoreFacts.
Import Examples MoreExamples.

Section Script.
Variable Enc : Type.
Variable Gray : Type.
Variable face_distance : Enc -> Enc -> Q.
Variable imread : string -> option ndarray.
Variable face_locations : ndarray -> nat -> string -> list face_location.
Variable face_encodings : ndarray -> list face_location -> nat -> list Enc.
Variable cvtColor_BGR2GRAY : ndarray -> Gray.
Variable Laplacian_var : Gray -> Q.
Variable data : gallery Enc.

Abbreviation resolve_here :=
  (resolve Enc face_distance COMPARE_FACES_TOLERANCE NAME_THRESHOLD data).
Abbreviation for_encodings_here := (for_encodings Enc face_distance data).
Abbreviation process_label_here :=
  (process_label Enc Gray face_distance face_locations face_encodings
     cvtColor_BGR2GRAY Laplacian_var data).
Abbreviation box_decision_here :=
  (box_decision Enc Gray face_distance face_locations face_encodings
     cvtColor_BGR2GRAY Laplacian_var data).
Abbreviation for_labels_here :=
  (for_labels Enc Gray face_distance face_locations face_encodings
     cvtColor_BGR2GRAY Laplacian_var data).
Abbreviation process_image_here :=
  (process_image Enc Gray face_distance imread face_locations face_encodings
     cvtColor_BGR2GRAY Laplacian_var data).
Abbreviation for_images_here :=
  (for_images Enc Gray face_distance imread face_locations face_encodings
     cvtColor_BGR2GRAY Laplacian_var data).
Abbreviation main_here :=
  (main Enc Gray face_distance imread face_locations face_encodings
     cvtColor_BGR2GRAY Laplacian_var data).

(** [process_label] writes the decision for the box onto a person label
    and leaves every other label alone. *)
Lemma process_label_as_decision (name_count : dict) (img : ndarray) (l : label)
    (s : state) :
  process_label_here name_count img l s =
  (if is_person l
   then v <- box_decision_here name_count img (bbox l) ;; ret (set_face l v)
   else ret l) s.
Proof.
  unfold process_label, box_decision, is_person.
  destruct (String.eqb (name l) "person"); [|reflexivity].
  destruct (size _ =? 0)%nat; [reflexivity|].
  destruct (face_locations _ _ _) as [|[[[t r] b] lf] rest]; [reflexivity|].
  unfold bind.
  destruct (Qlt_bool _ _).
  - destruct (assign_name PyNone s) as [[u|ex] s1]; [|reflexivity].
    destruct (read_name s1) as [[v|ex] s2]; reflexivity.
  - destruct (call_face_encodings _ _ _ _ s) as [[encs|ex] s1]; [|reflexivity].
    destruct (for_encodings_here name_count encs s1) as [[u|ex] s2];
      [|reflexivity].
    destruct (read_name s2) as [[v|ex] s3]; reflexivity.
Qed.

(** *** The values written *)

Lemma for_encodings_domain (name_count : dict) (encs : list Enc) :
  forall s s',
    for_encodings_here name_count encs s = (Ok tt, s') ->
    name_in_domain (names data) s -> name_in_domain (names data) s'.
Proof.
  induction encs as [|e r IH]; intros s s' H Hs.
  - inversion H; subst. assumption.
  - cbn [for_encodings] in H. unfold bind, lift, assign_name in H.
    destruct (resolve_here name_count e) as [v|ex] eqn:Er; [|discriminate].
    apply IH in H; [assumption|].
    intros u Hu. cbn [var_name] in Hu. inversion Hu; subst u.
    exact (decide_domain _ _ _ _ _ Er).
Qed.

Lemma box_decision_domain (name_count : dict) (img : ndarray) (b : box)
    (s s' : state) (v : value) :
  box_decision_here name_count img b s = (Ok v, s') ->
  name_in_domain (names data) s ->
  face_domain (names data) v /\ name_in_domain (names data) s'.
Proof.
  unfold box_decision. intros H Hs.
  assert (Hnone : face_domain (names data) PyNone) by now left.
  destruct (size _ =? 0)%nat; [inversion H; subst; auto|].
  destruct (face_locations _ _ _) as [|[[[t r] bt] lf] rest];
    [inversion H; subst; auto|].
  unfold bind in H. destruct (Qlt_bool _ _).
  - unfold assign_name, read_name in H. cbn [var_name] in H.
    inversion H; subst. split; [assumption|].
    intros u Hu. cbn [var_name] in Hu. inversion Hu; subst. assumption.
  - unfold call_face_encodings in H.
    match type of H with
    | context [for_encodings_here name_count ?encs ?s1] =>
        destruct (for_encodings_here name_count encs s1) as [[[]|ex] s2] eqn:Ef;
          [|discriminate];
        apply for_encodings_domain in Ef; [|exact Hs]
    end.
    unfold read_name in H. destruct (var_name s2) as [u|] eqn:Eu;
      [|discriminate].
    inversion H; subst. split; [|assumption]. now apply Ef.
Qed.

Lemma process_label_annotated (name_count : dict) (img : ndarray) (l l' : label)
    (s s' : state) :
  process_label_here name_count img l s = (Ok l', s') ->
  name_in_domain (names data) s ->
  label_annotated (names data) l l' /\ name_in_domain (names data) s'.
Proof.
  rewrite process_label_as_decision. unfold label_annotated.
  destruct (is_person l).
  - unfold bind, ret.
    destruct (box_decision_here name_count img (bbox l) s) as [[v|ex] s1] eqn:Eb;
      [|discriminate].
    intros H Hs. inversion H; subst.
    destruct (box_decision_domain _ _ _ _ _ _ Eb Hs). eauto.
  - intros H Hs. inversion H; subst. auto.
Qed.

Lemma for_labels_annotated (name_count : dict) (img : ndarray) (ls : list label) :
  forall ls' s s',
    for_labels_here name_count img ls s = (Ok ls', s') ->
    name_in_domain (names data) s ->
    Forall2 (label_annotated (names data)) ls ls' /\
    name_in_domain (names data) s'.
Proof.
  induction ls as [|l r IH]; intros ls' s s' H Hs.
  - inversion H; subst. auto.
  - cbn [for_labels] in H. unfold bind, ret in H.
    destruct (process_label_here name_count img l s) as [[l1|ex] s1] eqn:El;
      [|discriminate].
    destruct (for_labels_here name_count img r s1) as [[r1|ex] s2] eqn:Er;
      [|discriminate].
    inversion H; subst.
    destruct (process_label_annotated _ _ _ _ _ _ El Hs) as [Hl Hs1].
    destruct (IH _ _ _ Er Hs1) as [Hr Hs2]. auto.
Qed.

Lemma for_images_annotated (name_count : dict) (objs : list image_record) :
  forall out s s',
    for_images_here name_count objs s = (Ok out, s') ->
    name_in_domain (names data) s ->
    Forall2 (record_annotated (names data)) objs out /\
    name_in_domain (names data) s'.
Proof.
  induction objs as [|o r IH]; intros out s s' H Hs.
  - inversion H; subst. auto.
  - cbn [for_images] in H. unfold bind, ret, process_image, raise in H.
    destruct (imread (image o)) as [img|]; [|discriminate].
    unfold bind, ret in H.
    destruct (for_labels_here name_count img (labels o) s) as [[ls|ex] s1] eqn:El;
      [|discriminate].
    cbv beta iota in H.
    destruct (for_images_here name_count r s1) as [[r1|ex] s2] eqn:Er;
      [|discriminate].
    inversion H; subst.
    destruct (for_labels_annotated _ _ _ _ _ _ El Hs) as [Hl Hs1].
    destruct (IH _ _ _ Er Hs1) as [Hr Hs2].
    split; [|assumption]. constructor; [|assumption]. split; [reflexivity|].
    assumption.
Qed.

(** One step of the loop over the labels. *)
Lemma for_labels_cons (name_count : dict) (img : ndarray) (l : label)
    (r : list label) (s : state) :
  for_labels_here name_count img (l :: r) s =
  if is_person l
  then
    match box_decision_here name_count img (bbox l) s with
    | (Ok v, s1) =>
        match for_labels_here name_count img r s1 with
        | (Ok r', s2) => (Ok (set_face l v :: r'), s2)
        | (Raise e, s2) => (Raise e, s2)
        end
    | (Raise e, s1) => (Raise e, s1)
    end
  else
    match for_labels_here name_count img r s with
    | (Ok r', s2) => (Ok (l :: r'), s2)
    | (Raise e, s2) => (Raise e, s2)
    end.
Proof.
  cbn [for_labels]. unfold bind at 1. rewrite process_label_as_decision.
  destruct (is_person l).
  - unfold bind at 1.
    destruct (box_decision_here name_count img (bbox l) s) as [[v|ex] s1];
      [|reflexivity].
    unfold ret at 1. unfold bind, ret.
    destruct (for_labels_here name_count img r s1) as [[r'|ex] s2]; reflexivity.
  - unfold ret at 1. unfold bind, ret.
    destruct (for_labels_here name_count img r s) as [[r'|ex] s2]; reflexivity.
Qed.

(** One step of the loop over the images. *)
Lemma for_images_cons (name_count : dict) (o : image_record)
    (r : list image_record) (s : state) :
  for_images_here name_count (o :: r) s =
  match imread (image o) with
  | None => (Raise AttributeError, s)
  | Some img =>
      match for_labels_here name_count img (labels o) s with
      | (Ok ls, s1) =>
          match for_images_here name_count r s1 with
          | (Ok r', s2) => (Ok ({| image := image o; labels := ls |} :: r'), s2)
          | (Raise e, s2) => (Raise e, s2)
          end
      | (Raise e, s1) => (Raise e, s1)
      end
  end.
Proof.
  cbn [for_images]. unfold bind, process_image, raise, ret.
  destruct (imread (image o)) as [img|]; [|reflexivity].
  unfold bind, ret.
  destruct (for_labels_here name_count img (labels o) s) as [[ls|ex] s1];
    [|reflexivity].
  destruct (for_images_here name_count r s1) as [[r'|ex] s2]; reflexivity.
Qed.

(** The state in which the loop over the images starts. *)
Lemma main_unfold (o : image_record) (objs : list image_record) :
  exists name_count s0,
    count_names (names data) (dict_zero (names data)) initial_state
    = (Ok name_count, s0) /\
    main_here (o :: objs) = for_images_here name_count (o :: objs) s0 /\
    face_encodings_calls s0 = [] /\
    var_name s0 = match names data with
                  | [] => None
                  | _ => Some (PyStr (last (names data) ""%string))
                  end.
Proof.
  destruct (count_names_spec (names data) initial_state) as (nc & s0 & Hc & _).
  exists nc, s0. split; [assumption|].
  destruct (ResolverExtras.count_names_state _ _ _ _ _ Hc) as [Hcalls Hvar].
  split; [|split; assumption].
  cbn [main]. unfold bind at 1. now rewrite Hc.
Qed.

(** X7.  When the script returns, its output is the input batch with
    the same images and labels in the same order; a label that is not a
    person is untouched, and a person label differs from its input only
    in [face], which holds [None], ['Unknown'] or a name of the gallery.
    The script never writes [faceProba]. *)
Theorem main_annotates (objs out : list image_record) :
  fst (main_here objs) = Ok out ->
  Forall2 (record_annotated (names data)) objs out.
Proof.
  destruct objs as [|o objs]; [discriminate|].
  destruct (main_unfold o objs) as (nc & s0 & _ & -> & _ & Hvar).
  intros H.
  destruct (for_images_here nc (o :: objs) s0) as [r s1] eqn:E.
  simpl in H. subst r.
  apply (for_images_annotated _ _ _ _ _ E).
  intros v Hv. rewrite Hvar in Hv.
  assert (Hlast : forall (l : list string), l <> [] -> In (last l ""%string) l).
  { induction l as [|a l IHl]; [congruence|]. intros _.
    destruct l as [|b l]; [now left|]. right. apply IHl. discriminate. }
  destruct (names data) as [|n nms] eqn:En; [discriminate|].
  injection Hv as <-. right. right.
  exists (last (n :: nms) ""%string).
  split; [apply Hlast; discriminate | reflexivity].
Qed.

(** *** When the script returns *)

Section Aligned.
Variable name_count : dict.
Variable s0 : state.
Hypothesis Hlen : (List.length (encodings data) <= List.length (names data))%nat.
Hypothesis Hnc :
  fst (count_names (names data) (dict_zero (names data)) s0) = Ok name_count.

Lemma for_encodings_total (encs : list Enc) :
  forall s, exists s',
    for_encodings_here name_count encs s = (Ok tt, s') /\
    (var_name s <> None -> var_name s' <> None).
Proof.
  induction encs as [|e r IH]; intros s.
  - exists s. split; [reflexivity | auto].
  - cbn [for_encodings]. unfold bind, lift, assign_name.
    destruct (ScriptProps.resolve_total Enc face_distance data name_count e s0
                Hlen Hnc) as [v ->].
    destruct (IH {| var_name := Some v;
                    face_encodings_calls := face_encodings_calls s |})
      as (s' & -> & Hb).
    exists s'. split; [reflexivity|]. intros _. apply Hb. discriminate.
Qed.

Lemma box_decision_total (img : ndarray) (b : box) (s : state) :
  var_name s <> None ->
  exists v s',
    box_decision_here name_count img b s = (Ok v, s') /\ var_name s' <> None.
Proof.
  intros Hs. unfold box_decision.
  destruct (size _ =? 0)%nat; [exists PyNone, s; auto|].
  destruct (face_locations _ _ _) as [|[[[t r] bt] lf] rest];
    [exists PyNone, s; auto|].
  unfold bind. destruct (Qlt_bool _ _).
  - unfold assign_name, read_name. cbn [var_name].
    eexists. eexists. split; [reflexivity|]. discriminate.
  - unfold call_face_encodings.
    match goal with
    | |- context [for_encodings_here name_count ?encs ?s1] =>
        destruct (for_encodings_total encs s1) as (s2 & -> & Hb)
    end.
    cbn [var_name] in Hb. specialize (Hb Hs).
    unfold read_name. destruct (var_name s2) as [u|] eqn:Eu; [|congruence].
    exists u, s2. split; [reflexivity|]. congruence.
Qed.

Lemma for_labels_total (img : ndarray) (ls : list label) :
  forall s, var_name s <> None ->
    exists ls' s',
      for_labels_here name_count img ls s = (Ok ls', s') /\ var_name s' <> None.
Proof.
  induction ls as [|l r IH]; intros s Hs.
  - exists [], s. auto.
  - cbn [for_labels]. unfold bind at 1. rewrite process_label_as_decision.
    destruct (is_person l).
    + unfold bind at 1.
      destruct (box_decision_total img (bbox l) s Hs) as (v & s1 & -> & Hs1).
      unfold ret at 1. unfold bind.
      destruct (IH s1 Hs1) as (r' & s2 & -> & Hs2).
      eexists. eexists. split; [reflexivity | assumption].
    + unfold ret at 1. unfold bind.
      destruct (IH s Hs) as (r' & s2 & -> & Hs2).
      eexists. eexists. split; [reflexivity | assumption].
Qed.

Lemma for_images_outcome (objs : list image_record) :
  forall s, var_name s <> None ->
    (Forall (fun o => imread (image o) <> None) objs ->
     exists out, fst (for_images_here name_count objs s) = Ok out) /\
    (Exists (fun o => imread (image o) = None) objs ->
     fst (for_images_here name_count objs s) = Raise AttributeError).
Proof.
  induction objs as [|o r IH]; intros s Hs.
  - split; [intros _; exists []; reflexivity | intros H; inversion H].
  - rewrite for_images_cons.
    destruct (imread (image o)) as [img|] eqn:Ei.
    + destruct (for_labels_total img (labels o) s Hs) as (ls & s1 & -> & Hs1).
      destruct (IH s1 Hs1) as [Hall Hex].
      destruct (for_images_here name_count r s1) as [[r'|ex] s2];
        cbn [fst] in *; split.
      * intros _. eexists. reflexivity.
      * intros H. apply Exists_cons in H as [Hn|Hr]; [congruence|].
        specialize (Hex Hr). discriminate.
      * intros H. apply Forall_inv_tail in H.
        destruct (Hall H) as [out Hout]. discriminate.
      * intros H. apply Exists_cons in H as [Hn|Hr]; [congruence|].
        exact (Hex Hr).
    + split; [|reflexivity]. intros H. apply Forall_inv in H.
      cbv beta in H. congruence.
Qed.

End Aligned.


(** *** The calls of [face_encodings] *)

Lemma box_decision_calls (name_count : dict) (img : ndarray) (b : box)
    (s : state) :
  (List.length (face_encodings_calls
                  (snd (box_decision_here name_count img b s)))
   <= S (List.length (face_encodings_calls s)))%nat.
Proof.
  unfold box_decision.
  destruct (size _ =? 0)%nat; [simpl; lia|].
  destruct (face_locations _ _ _) as [|[[[t r] bt] lf] rest]; [simpl; lia|].
  unfold bind. destruct (Qlt_bool _ _).
  - unfold assign_name, read_name. cbn. lia.
  - unfold call_face_encodings.
    match goal with
    | |- context [for_encodings_here name_count ?encs ?s1] =>
        pose proof (ScriptProps.for_encodings_calls Enc face_distance data
                      name_count encs s1) as Hc;
        destruct (for_encodings_here name_count encs s1) as [[u|ex] s2]
    end; cbn [snd face_encodings_calls] in Hc.
    + unfold read_name. destruct (var_name s2); cbn [snd]; rewrite Hc;
        rewrite length_app; simpl; lia.
    + cbn [snd]. rewrite Hc, length_app. simpl. lia.
Qed.

Lemma for_labels_calls (name_count : dict) (img : ndarray) (ls : list label) :
  forall s,
    (List.length (face_encodings_calls
                    (snd (for_labels_here name_count img ls s)))
     <= List.length (face_encodings_calls s)
        + List.length (filter is_person ls))%nat.
Proof.
  induction ls as [|l r IH]; intros s; [simpl; lia|].
  rewrite for_labels_cons. cbn [filter].
  destruct (is_person l).
  - pose proof (box_decision_calls name_count img (bbox l) s) as Hb.
    destruct (box_decision_here name_count img (bbox l) s) as [[v|ex] s1];
      cbn [snd] in Hb.
    + specialize (IH s1).
      destruct (for_labels_here name_count img r s1) as [[r'|ex] s2];
        cbn [snd List.length] in *; lia.
    + cbn [snd List.length]. lia.
  - specialize (IH s).
    destruct (for_labels_here name_count img r s) as [[r'|ex] s2];
      cbn [snd] in *; lia.
Qed.

Lemma for_images_calls (name_count : dict) (objs : list image_record) :
  forall s,
    (List.length (face_encodings_calls
                    (snd (for_images_here name_count objs s)))
     <= List.length (face_encodings_calls s) + person_boxes objs)%nat.
Proof.
  unfold person_boxes, list_sum.
  induction objs as [|o r IH]; intros s; [simpl; lia|].
  rewrite for_images_cons. cbn [map fold_right].
  destruct (imread (image o)) as [img|]; [|cbn [snd]; lia].
  pose proof (for_labels_calls name_count img (labels o) s) as Hl.
  destruct (for_labels_here name_count img (labels o) s) as [[ls|ex] s1];
    cbn [snd] in Hl.
  - specialize (IH s1).
    destruct (for_images_here name_count r s1) as [[r'|ex] s2];
      cbn [snd] in *; lia.
  - cbn [snd]. lia.
Qed.

(** X9.  The script calls [face_recognition.face_encodings] at most
    once per person box of the batch, whether it returns or raises; on a
    batch without person boxes it never calls it. *)
Theorem main_face_encodings_calls (objs : list image_record) :
  (List.length (face_encodings_calls (snd (main_here objs)))
   <= person_boxes objs)%nat.
Proof.
  destruct objs as [|o objs]; [cbn; lia|].
  destruct (main_unfold o objs) as (nc & s0 & _ & -> & Hcalls & _).
  pose proof (for_images_calls nc (o :: objs) s0) as H.
  rewrite Hcalls in H. exact H.
Qed.

(** *** Running the script on its own output *)

Lemma process_label_idem (name_count : dict) (img : ndarray) (l l' : label)
    (s s' : state) :
  process_label_here name_count img l s = (Ok l', s') ->
  process_label_here name_count img l' s = (Ok l', s').
Proof.
  rewrite !process_label_as_decision.
  destruct (is_person l) eqn:Ep.
  - unfold bind.
    destruct (box_decision_here name_count img (bbox l) s) as [[v|ex] s1] eqn:Eb;
      [|discriminate].
    unfold ret. intros H. inversion H; subst.
    unfold is_person in *. cbn [set_face name bbox]. rewrite Ep, Eb.
    reflexivity.
  - unfold ret. intros H. inversion H; subst. now rewrite Ep.
Qed.

Lemma for_labels_idem (name_count : dict) (img : ndarray) (ls : list label) :
  forall ls' s s',
    for_labels_here name_count img ls s = (Ok ls', s') ->
    for_labels_here name_count img ls' s = (Ok ls', s').
Proof.
  induction ls as [|l r IH]; intros ls' s s' H.
  - inversion H; subst. reflexivity.
  - cbn [for_labels] in H. unfold bind, ret in H.
    destruct (process_label_here name_count img l s) as [[l1|ex] s1] eqn:El;
      [|discriminate].
    destruct (for_labels_here name_count img r s1) as [[r1|ex] s2] eqn:Er;
      [|discriminate].
    inversion H; subst. cbn [for_labels]. unfold bind, ret.
    rewrite (process_label_idem _ _ _ _ _ _ El), (IH _ _ _ Er). reflexivity.
Qed.

Lemma for_images_idem (name_count : dict) (objs : list image_record) :
  forall out s s',
    for_images_here name_count objs s = (Ok out, s') ->
    for_images_here name_count out s = (Ok out, s').
Proof.
  induction objs as [|o r IH]; intros out s s' H.
  - inversion H; subst. reflexivity.
  - cbn [for_images] in H. unfold bind, ret, process_image, raise in H.
    destruct (imread (image o)) as [img|] eqn:Ei; [|discriminate].
    unfold bind, ret in H.
    destruct (for_labels_here name_count img (labels o) s) as [[ls|ex] s1] eqn:El;
      [|discriminate].
    cbv beta iota in H.
    destruct (for_images_here name_count r s1) as [[r1|ex] s2] eqn:Er;
      [|discriminate].
    inversion H; subst. cbn [for_images]. unfold bind, ret, process_image.
    cbn [image labels]. rewrite Ei. unfold bind, ret.
    rewrite (for_labels_idem _ _ _ _ _ _ El). cbv beta iota.
    rewrite (IH _ _ _ Er). reflexivity.
Qed.

(** X10.  The script is idempotent on batches: run on the batch it
    returned, it returns that batch again, in the same final state. *)
Theorem main_idempotent (objs out : list image_record) (s : state) :
  main_here objs = (Ok out, s) -> main_here out = (Ok out, s).
Proof.
  destruct objs as [|o objs]; [discriminate|].
  destruct (main_unfold o objs) as (nc & s0 & Hc & -> & _).
  intros H. pose proof (for_images_idem _ _ _ _ _ H) as Hi.
  destruct out as [|o' out].
  - cbn [for_images] in H. unfold bind, process_image, raise, ret in H.
    destruct (imread (image o)); [|discriminate].
    unfold bind in H.
    destruct (for_labels_here nc _ (labels o) s0) as [[ls|ex] s1]; [|discriminate].
    unfold ret in H. cbv beta iota in H.
    destruct (for_images_here nc objs s1) as [[r1|ex] s2]; discriminate.
  - destruct (main_unfold o' out) as (nc' & s0' & Hc' & -> & _).
    rewrite Hc in Hc'. inversion Hc'; subst. exact Hi.
Qed.

End Script.

Lemma main_annotates_witness :
  exists out,
    fst (main Q nat dist imread_ok one_face encode_each to_gray sharp gallery_A
           batch_ok) = Ok out /\
    Forall2 (record_annotated (names gallery_A)) batch_ok out.
Proof.
  destruct (fst (main Q nat dist imread_ok one_face encode_each to_gray sharp
                   gallery_A batch_ok)) as [out|ex] eqn:E;
    [|vm_compute in E; discriminate].
  exists out. split; [reflexivity|].
  exact (main_annotates Q nat dist imread_ok one_face encode_each to_gray sharp
           gallery_A batch_ok out E).
Defined.


Lemma main_idempotent_witness :
  exists out s,
    main Q nat dist imread_ok one_face encode_each to_gray sharp gallery_A
      batch_ok = (Ok out, s) /\
    main Q nat dist imread_ok one_face encode_each to_gray sharp gallery_A
      out = (Ok out, s).
Proof.
  destruct (main Q nat dist imread_ok one_face encode_each to_gray sharp
              gallery_A batch_ok) as [[out|ex] s] eqn:E;
    [|vm_compute in E; discriminate].
  exists out, s. split; [reflexivity|].
  exact (main_idempotent Q nat dist imread_ok one_face encode_each to_gray sharp
           gallery_A batch_ok out s E).
Defined.

End ScriptExtras.

(** ** Further properties of the person classifier server on a batch *)

Module ClassifierExtras.
Import Py Img PersonClassifier ScriptSpec BatchSpec Examples MoreExamples.

Section Server.
Variable Tensor : Type.
Variable MIN_PROBA : Q.
Variable LABEL_MAP : list string.
Variable MODEL_ARCH : arch.
Variable imread : string -> option ndarray.
Variable resize : ndarray -> nat * nat -> ndarray.
Variable preprocessor : arch -> ndarray -> Tensor.
Variable sess_run : Tensor -> list Q.

Abbreviation classify_here :=
  (classify_label Tensor MIN_PROBA LABEL_MAP MODEL_ARCH imread resize
     preprocessor sess_run).
Abbreviation for_labels_here :=
  (for_labels Tensor MIN_PROBA LABEL_MAP MODEL_ARCH imread resize
     preprocessor sess_run).
Abbreviation detect_faces_here :=
  (detect_faces Tensor MIN_PROBA LABEL_MAP MODEL_ARCH imread resize
     preprocessor sess_run).
(** The prediction vector of the region of a label. *)
Abbreviation predictions_of img l :=
  (sess_run (preprocessor MODEL_ARCH
               (resize (roi_of img l) (input_size MODEL_ARCH)))).

(** [classify_label] on a person box whose region is read and not empty. *)
Lemma classify_label_region (obj : image_record) (l : label) (img : ndarray) :
  name l = "person"%string ->
  imread (image obj) = Some img ->
  size (roi_of img l) <> 0%nat ->
  classify_here obj l =
  rbind (argmax (predictions_of img l))
    (fun jp =>
       rbind (list_item LABEL_MAP (fst jp))
         (fun person =>
            Ok (set_faceProba
                  (set_face l (if Qle_bool MIN_PROBA (snd jp)
                               then PyStr person else PyNone))
                  (snd jp)))).
Proof.
  intros Hp Hr Hsz. unfold classify_label. rewrite Hp, Hr.
  change (crop img (ymin (bbox l)) (ymax (bbox l))
            (xmin (bbox l)) (xmax (bbox l))) with (roi_of img l).
  apply Nat.eqb_neq in Hsz. rewrite Hsz. reflexivity.
Qed.

Lemma is_person_true (l : label) : is_person l = true <-> name l = "person"%string.
Proof. unfold is_person. apply String.eqb_eq. Qed.

Lemma classify_label_classified (obj : image_record) (l l' : label) :
  classify_here obj l = Ok l' -> label_classified MIN_PROBA LABEL_MAP l l'.
Proof.
  unfold label_classified. destruct (is_person l) eqn:Ep.
  - apply is_person_true in Ep.
    destruct (imread (image obj)) as [img|] eqn:Er.
    + destruct (Nat.eq_dec (size (roi_of img l)) 0) as [Hz|Hnz].
      * rewrite (ClassifierProps.classify_label_empty_roi _ _ _ _ _ _ _ _
                   obj l img Ep Er Hz).
        intros H. inversion H. now left.
      * rewrite (classify_label_region obj l img Ep Er Hnz).
        destruct (argmax (predictions_of img l)) as [[j p]|]; cbn [rbind fst snd];
          [|discriminate].
        unfold list_item. destruct (nth_error LABEL_MAP j) as [person|] eqn:El;
          cbn [rbind]; [|discriminate].
        intros H. inversion H. right. exists p.
        destruct (Qle_bool MIN_PROBA p) eqn:E.
        -- right. exists person. split; [eapply nth_error_In; eassumption|].
           split; [reflexivity|]. now apply Qle_bool_iff.
        -- left. split; [reflexivity|]. apply Qnot_le_lt. intros Hle.
           apply Qle_bool_iff in Hle. congruence.
    + rewrite (ClassifierProps.classify_label_unreadable _ _ _ _ _ _ _ _
                 obj l Ep Er).
      intros H. inversion H. now left.
  - rewrite ClassifierProps.classify_label_other.
    + intros H. now inversion H.
    + intros Hp. apply is_person_true in Hp. congruence.
Qed.

Lemma for_labels_classified (obj : image_record) (ls : list label) :
  forall ls',
    for_labels_here obj ls = Ok ls' ->
    Forall2 (label_classified MIN_PROBA LABEL_MAP) ls ls'.
Proof.
  induction ls as [|l r IH]; intros ls' H.
  - inversion H. constructor.
  - cbn [for_labels] in H.
    destruct (classify_here obj l) as [l1|] eqn:El; cbn [rbind] in H;
      [|discriminate].
    destruct (for_labels_here obj r) as [r1|] eqn:Er; cbn [rbind] in H;
      [|discriminate].
    inversion H. constructor; [|now apply IH].
    exact (classify_label_classified obj l l1 El).
Qed.

(** X11.  When the server returns, its output is the input batch with
    the same images and labels in the same order; a label that is not a
    person is untouched; a person label either gets [face = None] alone,
    or gets [faceProba = p] together with [face]: an entry of the label
    map when [p >= MIN_PROBA], [None] when [p < MIN_PROBA].  So a reported
    identity always comes with a confidence of at least [MIN_PROBA]. *)
Theorem detect_faces_classifies (objs out : list image_record) :
  detect_faces_here objs = Ok out ->
  Forall2 (record_classified MIN_PROBA LABEL_MAP) objs out.
Proof.
  revert out. induction objs as [|o r IH]; intros out H.
  - inversion H. constructor.
  - cbn [detect_faces] in H.
    destruct (for_labels_here o (labels o)) as [ls|] eqn:El; cbn [rbind] in H;
      [|discriminate].
    destruct (detect_faces_here r) as [r1|] eqn:Er; cbn [rbind] in H;
      [|discriminate].
    inversion H. constructor; [|now apply IH].
    split; [reflexivity|]. exact (for_labels_classified o (labels o) ls El).
Qed.

Lemma for_labels_ok_iff (obj : image_record) (ls : list label) :
  (exists ls', for_labels_here obj ls = Ok ls') <->
  (forall l, In l ls -> exists l', classify_here obj l = Ok l').
Proof.
  induction ls as [|l r IH].
  - split; [intros _ l [] | intros _; exists []; reflexivity].
  - cbn [for_labels]. split.
    + intros [ls' H] l0 [<-|Hin].
      * destruct (classify_here obj l) as [l1|]; [eauto | discriminate].
      * destruct (classify_here obj l) as [l1|]; cbn [rbind] in H; [|discriminate].
        destruct (for_labels_here obj r) as [r1|] eqn:Er; cbn [rbind] in H;
          [|discriminate].
        apply (proj1 IH); eauto.
    + intros H. destruct (H l (or_introl eq_refl)) as [l1 ->]. cbn [rbind].
      destruct (proj2 IH) as [r1 ->]; [intros l0 Hl0; apply H; now right|].
      cbn [rbind]. eauto.
Qed.

Lemma detect_faces_ok_if (objs : list image_record) :
  (forall o l, In o objs -> In l (labels o) ->
               exists l', classify_here o l = Ok l') ->
  exists out, detect_faces_here objs = Ok out.
Proof.
  induction objs as [|o r IH]; intros H; [exists []; reflexivity|].
  cbn [detect_faces].
  destruct (proj2 (for_labels_ok_iff o (labels o))) as [ls ->];
    [intros l Hl; apply (H o l); [now left | assumption]|].
  cbn [rbind].
  destruct IH as [r1 ->];
    [intros o0 l Ho Hl; apply (H o0 l); [now right | assumption]|].
  cbn [rbind]. eauto.
Qed.

(** X12.  A call of the server is all or nothing: it returns a batch
    exactly when the classification of every label of every image
    returns; one label that raises makes the whole call raise. *)
Theorem detect_faces_all_or_nothing (objs : list image_record) :
  (exists out, detect_faces_here objs = Ok out) <->
  (forall o l, In o objs -> In l (labels o) ->
               exists l', classify_here o l = Ok l').
Proof.
  split; [|apply detect_faces_ok_if].
  induction objs as [|o r IH]; [intros _ o l []|].
  cbn [detect_faces]. intros [out H] o0 l [<-|Hin] Hl.
  - destruct (for_labels_here o (labels o)) as [ls|] eqn:El; [|discriminate].
    apply (proj1 (for_labels_ok_iff o (labels o))); eauto.
  - destruct (for_labels_here o (labels o)) as [ls|]; cbn [rbind] in H;
      [|discriminate].
    destruct (detect_faces_here r) as [r1|] eqn:Er; cbn [rbind] in H;
      [|discriminate].
    apply IH; eauto.
Qed.

(** X13.  For a person box whose region is read and not empty, the
    classification raises [ValueError] when the prediction vector is
    empty, and [IndexError] when the label map has no entry for the first
    index of the greatest prediction, whether or not that prediction
    reaches [MIN_PROBA]: the name is looked up before the comparison. *)
Theorem classify_label_raises (obj : image_record) (l : label) (img : ndarray) :
  name l = "person"%string ->
  imread (image obj) = Some img ->
  size (roi_of img l) <> 0%nat ->
  (predictions_of img l = [] -> classify_here obj l = Raise ValueError) /\
  (forall j p,
      nth_error (predictions_of img l) j = Some p ->
      (forall q, In q (predictions_of img l) -> (q <= p)%Q) ->
      (forall i q, (i < j)%nat -> nth_error (predictions_of img l) i = Some q ->
                   (q < p)%Q) ->
      (List.length LABEL_MAP <= j)%nat ->
      classify_here obj l = Raise IndexError).
Proof.
  intros Hp Hr Hsz. rewrite (classify_label_region obj l img Hp Hr Hsz). split.
  - intros ->. reflexivity.
  - intros j p Hj Hub Hfirst Hlen.
    assert (Hne : predictions_of img l <> []).
    { intros E. rewrite E in Hj. destruct j; discriminate. }
    destruct (ClassifierProps.argmax_spec _ Hne)
      as (j' & p' & -> & Hj' & Hub' & Hfirst').
    cbn [rbind fst snd].
    assert (j' = j) as ->.
    { destruct (Nat.lt_trichotomy j' j) as [Hlt|[Heq|Hgt]]; [|assumption|].
      - exfalso. pose proof (Hfirst j' p' Hlt Hj') as H1.
        pose proof (Hub' p (nth_error_In _ _ Hj)) as H2.
        exact (Qlt_not_le _ _ H1 H2).
      - exfalso. pose proof (Hfirst' j p Hgt Hj) as H1.
        pose proof (Hub p' (nth_error_In _ _ Hj')) as H2.
        exact (Qlt_not_le _ _ H1 H2). }
    unfold list_item.
    destruct (nth_error LABEL_MAP j) eqn:El; [|reflexivity].
    assert (nth_error LABEL_MAP j <> None) by congruence.
    apply nth_error_Some in H. lia.
Qed.

(** X14.  The server never raises on a batch in which every person
    region that is read and not empty has a non-empty prediction vector
    no longer than the label map. *)
Theorem detect_faces_total (objs : list image_record) :
  (forall o l img,
      In o objs -> In l (labels o) ->
      name l = "person"%string ->
      imread (image o) = Some img ->
      size (roi_of img l) <> 0%nat ->
      predictions_of img l <> [] /\
      (List.length (predictions_of img l) <= List.length LABEL_MAP)%nat) ->
  exists out, detect_faces_here objs = Ok out.
Proof.
  intros H. apply detect_faces_ok_if.
  intros o l Ho Hl.
  destruct (String.eqb_spec (name l) "person") as [Hp|Hp];
    [|rewrite ClassifierProps.classify_label_other by assumption; eauto].
  destruct (imread (image o)) as [img|] eqn:Er;
    [|rewrite ClassifierProps.classify_label_unreadable by assumption; eauto].
  destruct (Nat.eq_dec (size (roi_of img l)) 0) as [Hz|Hnz];
    [rewrite (ClassifierProps.classify_label_empty_roi _ _ _ _ _ _ _ _
                o l img Hp Er Hz); eauto|].
  destruct (H o l img Ho Hl Hp Er Hnz) as [Hne Hlen].
  rewrite (classify_label_region o l img Hp Er Hnz).
  destruct (ClassifierProps.argmax_spec _ Hne) as (j & p & -> & Hj & _).
  cbn [rbind fst snd]. unfold list_item.
  destruct (nth_error LABEL_MAP j) eqn:El; cbn [rbind]; [eauto|].
  apply nth_error_None in El.
  assert (nth_error (predictions_of img l) j <> None) by congruence.
  apply nth_error_Some in H0. lia.
Qed.

(** *** Calling the server on its own output *)

Lemma classify_label_idem (obj obj' : image_record) (l l' : label) :
  image obj' = image obj ->
  classify_here obj l = Ok l' -> classify_here obj' l' = Ok l'.
Proof.
  intros Hi. unfold classify_label. rewrite Hi.
  destruct (String.eqb (name l) "person") eqn:Ep.
  - destruct (imread (image obj)) as [img|].
    + destruct (size (crop img (ymin (bbox l)) (ymax (bbox l))
                        (xmin (bbox l)) (xmax (bbox l))) =? 0)%nat eqn:Ez.
      * intros H. inversion H. cbn [name bbox set_face]. now rewrite Ep, Ez.
      * destruct (argmax _) as [[j p]|] eqn:Ea; cbn [rbind fst snd];
          [|discriminate].
        destruct (list_item LABEL_MAP j) as [person|] eqn:El; cbn [rbind];
          [|discriminate].
        intros H. inversion H. cbn [name bbox set_face set_faceProba].
        rewrite Ep, Ez, Ea. cbn [rbind fst snd]. rewrite El. reflexivity.
    + intros H. inversion H. cbn [name set_face]. now rewrite Ep.
  - intros H. inversion H; subst. now rewrite Ep.
Qed.

Lemma server_for_labels_idem (obj obj' : image_record) (ls : list label) :
  image obj' = image obj ->
  forall ls', for_labels_here obj ls = Ok ls' -> for_labels_here obj' ls' = Ok ls'.
Proof.
  intros Hi. induction ls as [|l r IH]; intros ls' H.
  - inversion H. reflexivity.
  - cbn [for_labels] in H.
    destruct (classify_here obj l) as [l1|] eqn:El; cbn [rbind] in H;
      [|discriminate].
    destruct (for_labels_here obj r) as [r1|] eqn:Er; cbn [rbind] in H;
      [|discriminate].
    inversion H. cbn [for_labels].
    rewrite (classify_label_idem obj obj' l l1 Hi El). cbn [rbind].
    rewrite (IH r1 eq_refl). reflexivity.
Qed.

(** X15.  The server is idempotent on batches: called on the batch it
    returned, it returns that batch again; the decisions depend on the
    name and the box of a label only, never on a [face] or [faceProba]
    already present. *)
Theorem detect_faces_idempotent (objs out : list image_record) :
  detect_faces_here objs = Ok out -> detect_faces_here out = Ok out.
Proof.
  revert out. induction objs as [|o r IH]; intros out H.
  - inversion H. reflexivity.
  - cbn [detect_faces] in H.
    destruct (for_labels_here o (labels o)) as [ls|] eqn:El; cbn [rbind] in H;
      [|discriminate].
    destruct (detect_faces_here r) as [r1|] eqn:Er; cbn [rbind] in H;
      [|discriminate].
    inversion H. cbn [detect_faces labels image].
    rewrite (server_for_labels_idem o {| image := image o; labels := ls |} (labels o)
               eq_refl ls El).
    cbn [rbind]. rewrite (IH r1 eq_refl). reflexivity.
Qed.

End Server.

Lemma detect_faces_classifies_witness :
  exists out,
    detect_faces nat (1 # 2) label_map VGG16 imread_ok resize_id prep sure batch_ok
    = Ok out /\
    Forall2 (record_classified (1 # 2) label_map) batch_ok out.
Proof.
  destruct (detect_faces nat (1 # 2) label_map VGG16 imread_ok resize_id prep sure
              batch_ok) as [out|ex] eqn:E;
    [|vm_compute in E; discriminate].
  exists out. split; [reflexivity|].
  exact (detect_faces_classifies nat (1 # 2) label_map VGG16 imread_ok resize_id
           prep sure batch_ok out E).
Defined.

Lemma classify_label_raises_witness :
  classify_label nat (9 # 10) label_map VGG16 imread_ok resize_id prep no_classes
    {| image := "a.jpg"; labels := [person_box 0 0 50 50] |}
    (person_box 0 0 50 50) = Raise ValueError /\
  classify_label nat (9 # 10) label_map VGG16 imread_ok resize_id prep
    three_classes {| image := "a.jpg"; labels := [person_box 0 0 50 50] |}
    (person_box 0 0 50 50) = Raise IndexError.
Proof.
  split.
  - destruct (classify_label_raises nat (9 # 10) label_map VGG16 imread_ok
                resize_id prep no_classes
                {| image := "a.jpg"; labels := [person_box 0 0 50 50] |}
                (person_box 0 0 50 50) img100) as [Hempty _];
      [reflexivity | reflexivity | vm_compute; discriminate |].
    apply Hempty. reflexivity.
  - destruct (classify_label_raises nat (9 # 10) label_map VGG16 imread_ok
                resize_id prep three_classes
                {| image := "a.jpg"; labels := [person_box 0 0 50 50] |}
                (person_box 0 0 50 50) img100) as [_ Hshort];
      [reflexivity | reflexivity | vm_compute; discriminate |].
    apply (Hshort 2%nat (7 # 10)%Q).
    + reflexivity.
    + intros q Hq. unfold three_classes in Hq.
      each_member Hq; vm_compute; discriminate.
    + intros i q Hi Hq. unfold three_classes in Hq.
      destruct i as [|[|i]]; simpl in Hq; [| |lia];
        injection Hq as <-; reflexivity.
    + simpl. lia.
Defined.

Lemma detect_faces_total_witness :
  exists out,
    detect_faces nat (1 # 2) label_map VGG16 imread_one_bad resize_id prep sure
      batch_bad = Ok out.
Proof.
  apply (detect_faces_total nat (1 # 2) label_map VGG16 imread_one_bad resize_id
           prep sure batch_bad).
  intros o l img _ _ _ _ _. unfold sure. split; [discriminate | simpl; lia].
Defined.

Lemma detect_faces_idempotent_witness :
  exists out,
    detect_faces nat (1 # 2) label_map VGG16 imread_one_bad resize_id prep sure
      batch_bad = Ok out /\
    detect_faces nat (1 # 2) label_map VGG16 imread_one_bad resize_id prep sure
      out = Ok out.
Proof.
  destruct (detect_faces nat (1 # 2) label_map VGG16 imread_one_bad resize_id prep
              sure batch_bad) as [out|ex] eqn:E;
    [|vm_compute in E; discriminate].
  exists out. split; [reflexivity|].
  exact (detect_faces_idempotent nat (1 # 2) label_map VGG16 imread_one_bad
           resize_id prep sure batch_bad out E).
Defined.

End ClassifierExtras.

(** ** The order of the gallery, and the regions of the boxes *)

Module OrderExtras.
Import Py Img FaceDetRec VoteSpec ScriptSpec BatchSpec PyFacts VoteFacts MoreFacts.
Import Examples MoreExamples.

Lemma Permutation_filter_same {A : Type} (f : A -> bool) (l l' : list A) :
  Permutation l l' -> Permutation (filter f l) (filter f l').
Proof.
  induction 1 as [|x l l' _ IH|x y l|l l' l'' _ IH1 _ IH2]; cbn [filter].
  - constructor.
  - destruct (f x); [now constructor | assumption].
  - destruct (f x), (f y); try apply Permutation_refl. apply perm_swap.
  - eapply Permutation_trans; eassumption.
Qed.

Lemma map_fst_combine {A B : Type} (l1 : list A) :
  forall l2 : list B,
    (List.length l1 <= List.length l2)%nat -> map fst (combine l1 l2) = l1.
Proof.
  induction l1 as [|a l1 IH]; intros [|b l2] H; simpl in *;
    try reflexivity; try lia.
  f_equal. apply IH. lia.
Qed.

Lemma map_snd_combine {A B : Type} (l1 : list A) :
  forall l2 : list B,
    (List.length l2 <= List.length l1)%nat -> map snd (combine l1 l2) = l2.
Proof.
  induction l1 as [|a l1 IH]; intros [|b l2] H; simpl in *;
    try reflexivity; try lia.
  f_equal. apply IH. lia.
Qed.

Section Order.
Variable Enc : Type.
Variable face_distance : Enc -> Enc -> Q.

Abbreviation compare_here := (compare_faces Enc face_distance).
Abbreviation resolve_at := (resolve Enc face_distance).

(** The matched names, read off the gallery entries as pairs. *)
Lemma matched_names_pairs (e : Enc) (tolerance : Q) (nms : list string) :
  forall encs : list Enc,
    matched_names nms (compare_here encs e tolerance) =
    map fst (filter (fun nk => Qle_bool (face_distance (snd nk) e) tolerance)
               (combine nms encs)).
Proof.
  unfold matched_names, compare_faces.
  induction nms as [|n nms IH]; intros [|k encs]; try reflexivity.
  cbn [map combine filter fst snd].
  destruct (Qle_bool (face_distance k e) tolerance); cbn [map snd fst];
    now rewrite IH.
Qed.

Section TwoGalleries.
Variables data data' : gallery Enc.
Hypothesis Hlen : List.length (names data) = List.length (encodings data).
Hypothesis Hlen' : List.length (names data') = List.length (encodings data').
Hypothesis Hperm :
  Permutation (combine (names data) (encodings data))
              (combine (names data') (encodings data')).

Lemma perm_names : Permutation (names data) (names data').
Proof.
  rewrite <- (map_fst_combine (names data) (encodings data)) by lia.
  rewrite <- (map_fst_combine (names data') (encodings data')) by lia.
  now apply Permutation_map.
Qed.

Lemma perm_encodings : Permutation (encodings data) (encodings data').
Proof.
  rewrite <- (map_snd_combine (names data) (encodings data)) by lia.
  rewrite <- (map_snd_combine (names data') (encodings data')) by lia.
  now apply Permutation_map.
Qed.

Lemma perm_votes (e : Enc) (tolerance : Q) (L : string) :
  votes (names data) (compare_here (encodings data) e tolerance) L =
  votes (names data') (compare_here (encodings data') e tolerance) L.
Proof.
  unfold votes. f_equal. rewrite !matched_names_pairs.
  apply Permutation_count_occ.
  apply Permutation_map. now apply Permutation_filter_same.
Qed.

Lemma perm_population (L : string) :
  population (names data) L = population (names data') L.
Proof.
  unfold population. f_equal. apply Permutation_count_occ. exact perm_names.
Qed.

Lemma perm_margin_ok (e : Enc) (tolerance margin : Q) (w : string) :
  margin_ok margin (names data) (compare_here (encodings data) e tolerance) w ->
  margin_ok margin (names data') (compare_here (encodings data') e tolerance) w.
Proof.
  intros H L HL Hne. rewrite <- !perm_votes, <- perm_population.
  apply H; [|assumption].
  eapply Permutation_in; [apply Permutation_sym, perm_names | assumption].
Qed.

Lemma perm_match (e : Enc) (tolerance : Q) :
  In true (compare_here (encodings data) e tolerance) ->
  In true (compare_here (encodings data') e tolerance).
Proof.
  rewrite !ResolverProps.compare_faces_true. intros (k & Hk & Hle).
  exists k. split; [|assumption].
  eapply Permutation_in; [apply perm_encodings | assumption].
Qed.

End TwoGalleries.

(** With a non-negative margin the label accepted on a match is the one
    label of the gallery that passes the margin test. *)
Lemma resolve_accepts_iff (tolerance margin : Q) (data : gallery Enc)
    (name_count : dict) (e : Enc) (s : state) (w : string) :
  (List.length (encodings data) <= List.length (names data))%nat ->
  fst (count_names (names data) (dict_zero (names data)) s) = Ok name_count ->
  (0 <= margin)%Q ->
  In true (compare_here (encodings data) e tolerance) ->
  (resolve_at tolerance margin data name_count e = Ok (PyStr w) <->
   In w (names data) /\
   margin_ok margin (names data) (compare_here (encodings data) e tolerance) w).
Proof.
  intros Hlen Hnc Hm Hex.
  destruct (ResolverProps.resolve_vote_spec Enc face_distance tolerance margin
              data name_count e s Hlen Hnc Hex) as (w0 & Hw & Hyes & Hno).
  split.
  - intros Hr.
    destruct (margin_ok_decidable margin (names data)
                (compare_here (encodings data) e tolerance) w0) as [Hok|Hok];
      [|rewrite (Hno Hok) in Hr; discriminate].
    rewrite (Hyes Hok) in Hr. inversion Hr; subst w.
    split; [exact (is_winner_In _ _ _ Hw) | assumption].
  - intros [Hin Hok].
    destruct (string_dec w0 w) as [->|Hne]; [now apply Hyes|].
    exfalso. specialize (Hok w0 (is_winner_In _ _ _ Hw) Hne).
    pose proof (is_winner_max _ _ _ w Hw Hin) as Hmax.
    assert (Hge : (0 <= margin * inject_Z (population (names data) w))%Q).
    { apply Qmult_le_0_compat; [assumption|].
      pose proof (population_nonneg (names data) w).
      unfold Qle. simpl. lia. }
    assert (Hlt : (inject_Z (votes (names data)
                               (compare_here (encodings data) e tolerance) w0)
                   < inject_Z (votes (names data)
                                 (compare_here (encodings data) e tolerance) w))%Q).
    { eapply Qle_lt_trans; [|exact Hok].
      rewrite <- (Qplus_0_r (inject_Z _)) at 1. now apply Qplus_le_r. }
    unfold Qlt in Hlt. simpl in Hlt. lia.
Qed.

(** X16.  With a non-negative margin the outcome of the resolver does
    not depend on the order in which the gallery entries are stored: two
    aligned galleries that hold the same (name, encoding) pairs in any
    order resolve every face alike.  (The order decides only which of
    several tied labels is the candidate, and a tie is never accepted.) *)
Theorem resolve_order_independent (tolerance margin : Q)
    (data data' : gallery Enc) (name_count name_count' : dict) (e : Enc)
    (s s' : state) :
  List.length (names data) = List.length (encodings data) ->
  List.length (names data') = List.length (encodings data') ->
  Permutation (combine (names data) (encodings data))
              (combine (names data') (encodings data')) ->
  fst (count_names (names data) (dict_zero (names data)) s) = Ok name_count ->
  fst (count_names (names data') (dict_zero (names data')) s') = Ok name_count' ->
  (0 <= margin)%Q ->
  resolve_at tolerance margin data name_count e
  = resolve_at tolerance margin data' name_count' e.
Proof.
  intros Hlen Hlen' Hperm Hnc Hnc' Hm.
  assert (Hle : (List.length (encodings data) <= List.length (names data))%nat)
    by lia.
  assert (Hle' : (List.length (encodings data') <= List.length (names data'))%nat)
    by lia.
  pose proof (Permutation_sym Hperm) as Hperm'.
  destruct (existsb (fun b => b) (compare_here (encodings data) e tolerance))
    eqn:Ex.
  - apply existsb_id_In in Ex.
    pose proof (perm_match data data' Hlen Hlen' Hperm e tolerance Ex) as Ex'.
    pose proof (resolve_accepts_iff tolerance margin data name_count e s)
      as Hacc.
    pose proof (resolve_accepts_iff tolerance margin data' name_count' e s')
      as Hacc'.
    destruct (ResolverProps.resolve_vote_spec Enc face_distance tolerance margin
                data name_count e s Hle Hnc Ex) as (w & Hw & Hyes & Hno).
    destruct (ResolverProps.resolve_vote_spec Enc face_distance tolerance margin
                data' name_count' e s' Hle' Hnc' Ex') as (w' & Hw' & Hyes' & Hno').
    destruct (margin_ok_decidable margin (names data)
                (compare_here (encodings data) e tolerance) w) as [Hok|Hok].
    + rewrite (Hyes Hok). symmetry. apply Hacc'; auto. split.
      * eapply Permutation_in;
          [exact (perm_names data data' Hlen Hlen' Hperm)|].
        exact (is_winner_In _ _ _ Hw).
      * exact (perm_margin_ok data data' Hlen Hlen' Hperm e tolerance margin w Hok).
    + rewrite (Hno Hok).
      destruct (margin_ok_decidable margin (names data')
                  (compare_here (encodings data') e tolerance) w') as [Hok'|Hok'];
        [|now rewrite (Hno' Hok')].
      exfalso.
      assert (Hr : resolve_at tolerance margin data name_count e = Ok (PyStr w')).
      { apply Hacc; auto. split.
        - eapply Permutation_in;
            [exact (perm_names data' data Hlen' Hlen Hperm')|].
          exact (is_winner_In _ _ _ Hw').
        - exact (perm_margin_ok data' data Hlen' Hlen Hperm' e tolerance margin
                   w' Hok'). }
      rewrite (Hno Hok) in Hr. discriminate.
  - assert (Ex' : existsb (fun b => b)
                    (compare_here (encodings data') e tolerance) = false).
    { destruct (existsb _ (compare_here (encodings data') e tolerance)) eqn:E';
        [|reflexivity].
      apply existsb_id_In in E'.
      pose proof (perm_match data' data Hlen' Hlen Hperm' e tolerance E') as H.
      apply existsb_id_In in H. congruence. }
    unfold resolve, decide. now rewrite Ex, Ex'.
Qed.

End Order.

Lemma resolve_order_independent_witness :
  resolve Q dist COMPARE_FACES_TOLERANCE NAME_THRESHOLD gallery_A
    name_count_10_2 probe
  = resolve Q dist COMPARE_FACES_TOLERANCE NAME_THRESHOLD gallery_A_rev
      name_count_2_10 probe.
Proof.
  apply (resolve_order_independent Q dist COMPARE_FACES_TOLERANCE NAME_THRESHOLD
           gallery_A gallery_A_rev name_count_10_2 name_count_2_10 probe
           initial_state initial_state);
    [reflexivity | reflexivity | | reflexivity | reflexivity
    | vm_compute; discriminate].
  change (combine (names gallery_A_rev) (encodings gallery_A_rev))
    with (combine (repeat "Bob"%string 2) [near; far]
          ++ combine (repeat "Alice"%string 10) (repeat near 6 ++ repeat far 4)).
  change (combine (names gallery_A) (encodings gallery_A))
    with (combine (repeat "Alice"%string 10) (repeat near 6 ++ repeat far 4)
          ++ combine (repeat "Bob"%string 2) [near; far]).
  apply Permutation_app_comm.
Defined.

End OrderExtras.

(** ** The region of a box with non-negative coordinates *)

Module RegionExtras.
Import Py Img ScriptSpec BatchSpec Examples MoreExamples.

Lemma slice_bound_nonneg (n i : Z) : 0 <= i -> slice_bound n i = Z.min i n.
Proof.
  intros Hi. unfold slice_bound.
  destruct (Z.ltb_spec i 0); [lia | reflexivity].
Qed.


Section Paths.
Variable Enc : Type.
Variable Gray : Type.
Variable Tensor : Type.
Variable face_distance : Enc -> Enc -> Q.
Variable imread : string -> option ndarray.
Variable face_locations : ndarray -> nat -> string -> list FaceDetRec.face_location.
Variable face_encodings : ndarray -> list FaceDetRec.face_location -> nat -> list Enc.
Variable cvtColor_BGR2GRAY : ndarray -> Gray.
Variable Laplacian_var : Gray -> Q.
Variable data : FaceDetRec.gallery Enc.
Variable MIN_PROBA : Q.
Variable LABEL_MAP : list string.
Variable MODEL_ARCH : PersonClassifier.arch.
Variable resize : ndarray -> nat * nat -> ndarray.
Variable preprocessor : PersonClassifier.arch -> ndarray -> Tensor.
Variable sess_run : Tensor -> list Q.

(** X18.  For a person box with non-negative coordinates in an image
    that is read, the region is empty exactly when the clipped box has no
    area (it is degenerate, inverted, or lies beyond the right or the
    lower edge); on such a box both programs write [face = None], change
    nothing else, call no collaborator and do not raise. *)
Theorem no_area_no_decision (name_count : dict) (obj : image_record)
    (img : ndarray) (l : label) (s : FaceDetRec.state) :
  name l = "person"%string ->
  imread (image obj) = Some img ->
  0 <= xmin (bbox l) -> 0 <= ymin (bbox l) ->
  0 <= xmax (bbox l) -> 0 <= ymax (bbox l) ->
  let w := Z.of_nat (width img) in
  let h := Z.of_nat (height img) in
  let no_area :=
    Z.min (xmax (bbox l)) w <= Z.min (xmin (bbox l)) w \/
    Z.min (ymax (bbox l)) h <= Z.min (ymin (bbox l)) h in
  (size (roi_of img l) = 0%nat <-> no_area) /\
  (no_area ->
   FaceDetRec.process_label Enc Gray face_distance face_locations face_encodings
     cvtColor_BGR2GRAY Laplacian_var data name_count img l s
   = (Ok (set_face l PyNone), s) /\
   PersonClassifier.classify_label Tensor MIN_PROBA LABEL_MAP MODEL_ARCH imread
     resize preprocessor sess_run obj l
   = Ok (set_face l PyNone)).
Proof.
  intros Hp Hr Hx0 Hy0 Hx1 Hy1 w h no_area.
  assert (Hiff : size (roi_of img l) = 0%nat <-> no_area).
  { unfold no_area, size, roi_of, crop. cbn [height width].
    unfold slice_len. fold w h.
    rewrite !slice_bound_nonneg by assumption. split.
    - intros H. apply Nat.eq_mul_0 in H as [H|H]; [|discriminate].
      apply Nat.eq_mul_0 in H as [H|H]; lia.
    - intros [H|H].
      + replace (Z.to_nat (Z.min (xmax (bbox l)) w - Z.min (xmin (bbox l)) w))
          with 0%nat by lia. lia.
      + replace (Z.to_nat (Z.min (ymax (bbox l)) h - Z.min (ymin (bbox l)) h))
          with 0%nat by lia. lia. }
  split; [exact Hiff|]. intros Hno. apply Hiff in Hno. split.
  - now apply ScriptProps.process_label_empty_roi.
  - now apply (ClassifierProps.classify_label_empty_roi _ _ _ _ _ _ _ _ obj l img).
Qed.

End Paths.


Lemma no_area_no_decision_witness :
  FaceDetRec.process_label Q nat dist one_face encode_each to_gray sharp gallery_A
    name_count_10_2 img100 (person_box 60 10 20 50) FaceDetRec.initial_state
  = (Ok (set_face (person_box 60 10 20 50) PyNone), FaceDetRec.initial_state) /\
  PersonClassifier.classify_label nat (1 # 2) label_map PersonClassifier.VGG16
    imread_ok resize_id prep sure
    {| image := "a.jpg"; labels := [person_box 60 10 20 50] |}
    (person_box 60 10 20 50)
  = Ok (set_face (person_box 60 10 20 50) PyNone).
Proof.
  destruct (no_area_no_decision Q nat nat dist imread_ok one_face encode_each
              to_gray sharp gallery_A (1 # 2) label_map PersonClassifier.VGG16
              resize_id prep sure name_count_10_2
              {| image := "a.jpg"; labels := [person_box 60 10 20 50] |}
              img100 (person_box 60 10 20 50) FaceDetRec.initial_state)
    as [_ Hno];
    [reflexivity | reflexivity | simpl; lia | simpl; lia | simpl; lia
    | simpl; lia |].
  apply Hno. left. simpl. lia.
Defined.

End RegionExtras.

(** ** Independence of the boxes of a batch *)

Module IndependenceExtras.
Import Py Img FaceDetRec VoteSpec ScriptSpec BatchSpec PyFacts VoteFacts MoreFacts.
Import Examples MoreExamples.

Section Script.
Variable Enc : Type.
Variable Gray : Type.
Variable face_distance : Enc -> Enc -> Q.
Variable imread : string -> option ndarray.
Variable face_locations : ndarray -> nat -> string -> list face_location.
Variable face_encodings : ndarray -> list face_location -> nat -> list Enc.
Variable cvtColor_BGR2GRAY : ndarray -> Gray.
Variable Laplacian_var : Gray -> Q.
Variable data : gallery Enc.

Abbreviation for_encodings_here := (for_encodings Enc face_distance data).
Abbreviation process_label_here :=
  (process_label Enc Gray face_distance face_locations face_encodings
     cvtColor_BGR2GRAY Laplacian_var data).
Abbreviation box_decision_here :=
  (box_decision Enc Gray face_distance face_locations face_encodings
     cvtColor_BGR2GRAY Laplacian_var data).
Abbreviation for_labels_here :=
  (for_labels Enc Gray face_distance face_locations face_encodings
     cvtColor_BGR2GRAY Laplacian_var data).
Abbreviation for_images_here :=
  (for_images Enc Gray face_distance imread face_locations face_encodings
     cvtColor_BGR2GRAY Laplacian_var data).
Abbreviation main_here :=
  (main Enc Gray face_distance imread face_locations face_encodings
     cvtColor_BGR2GRAY Laplacian_var data).

Lemma for_encodings_same_name (name_count : dict) (encs : list Enc) :
  forall s1 s2,
    var_name s1 = var_name s2 ->
    same_end (for_encodings_here name_count encs s1)
             (for_encodings_here name_count encs s2).
Proof.
  induction encs as [|e r IH]; intros s1 s2 Hv; [exact Hv|].
  cbn [for_encodings]. unfold bind, lift, assign_name.
  destruct (resolve Enc face_distance COMPARE_FACES_TOLERANCE NAME_THRESHOLD
              data name_count e) as [v|ex]; [|reflexivity].
  apply IH. reflexivity.
Qed.

Lemma for_encodings_nonempty (name_count : dict) (encs : list Enc) :
  encs <> [] ->
  forall s1 s2,
    same_end (for_encodings_here name_count encs s1)
             (for_encodings_here name_count encs s2).
Proof.
  destruct encs as [|e r]; [congruence | intros _ s1 s2].
  cbn [for_encodings]. unfold bind, lift, assign_name.
  destruct (resolve Enc face_distance COMPARE_FACES_TOLERANCE NAME_THRESHOLD
              data name_count e) as [v|ex]; [|reflexivity].
  apply for_encodings_same_name. reflexivity.
Qed.

Section Contract.
(** The extractor returns an embedding for every location it is given,
    as [face_recognition.face_encodings] does. *)
Hypothesis Hencodings :
  forall rgb locs, locs <> [] -> face_encodings rgb locs NUM_JITTERS <> [].

Lemma box_decision_any_state (name_count : dict) (img : ndarray) (b : box)
    (s1 s2 : state) :
  fst (box_decision_here name_count img b s1)
  = fst (box_decision_here name_count img b s2).
Proof.
  unfold box_decision.
  destruct (size _ =? 0)%nat; [reflexivity|].
  destruct (face_locations _ _ _) as [|[[[t r] bt] lf] rest] eqn:Ef;
    [reflexivity|].
  unfold bind. destruct (Qlt_bool _ _); [reflexivity|].
  unfold call_face_encodings.
  assert (Hne : face_encodings
                  (cvtColor_BGR2RGB (crop img (ymin b) (ymax b) (xmin b) (xmax b)))
                  ((t, r, bt, lf) :: rest) NUM_JITTERS <> [])
    by (apply Hencodings; discriminate).
  match goal with
  | |- context [for_encodings_here name_count ?encs ?t1] =>
      match goal with
      | |- fst _ = fst (let (_, _) := for_encodings_here name_count encs ?t2 in _) =>
          pose proof (for_encodings_nonempty name_count encs Hne t1 t2) as H;
          destruct (for_encodings_here name_count encs t1) as [[u1|e1] q1];
          destruct (for_encodings_here name_count encs t2) as [[u2|e2] q2]
      end
  end; cbn [same_end] in H; try contradiction.
  - unfold read_name. rewrite H. destruct (var_name q2); reflexivity.
  - cbn [fst]. now subst.
Qed.

Lemma process_label_any_state (name_count : dict) (img : ndarray) (l : label)
    (s1 s2 : state) :
  fst (process_label_here name_count img l s1)
  = fst (process_label_here name_count img l s2).
Proof.
  rewrite !ScriptExtras.process_label_as_decision.
  destruct (is_person l); [|reflexivity].
  unfold bind.
  pose proof (box_decision_any_state name_count img (bbox l) s1 s2) as H.
  destruct (box_decision_here name_count img (bbox l) s1) as [[v1|e1] q1],
           (box_decision_here name_count img (bbox l) s2) as [[v2|e2] q2];
    cbn [fst] in H; try discriminate; inversion H; reflexivity.
Qed.

Lemma for_labels_independent (name_count : dict) (img : ndarray)
    (ls : list label) :
  forall ls' s s',
    for_labels_here name_count img ls s = (Ok ls', s') ->
    Forall2 (fun l l' =>
               forall t, fst (process_label_here name_count img l t) = Ok l')
      ls ls'.
Proof.
  induction ls as [|l r IH]; intros ls' s s' H.
  - inversion H. constructor.
  - cbn [for_labels] in H. unfold bind, ret in H.
    destruct (process_label_here name_count img l s) as [[l1|ex] s1] eqn:El;
      [|discriminate].
    destruct (for_labels_here name_count img r s1) as [[r1|ex] s2] eqn:Er;
      [|discriminate].
    inversion H; subst. constructor; [|exact (IH _ _ _ Er)].
    intros t. rewrite (process_label_any_state name_count img l t s), El.
    reflexivity.
Qed.

Lemma for_images_independent (name_count : dict) (objs : list image_record) :
  forall out s s',
    for_images_here name_count objs s = (Ok out, s') ->
    Forall2 (fun o o' =>
               image o' = image o /\
               exists img,
                 imread (image o) = Some img /\
                 Forall2 (fun l l' =>
                            forall t,
                              fst (process_label_here name_count img l t) = Ok l')
                   (labels o) (labels o'))
      objs out.
Proof.
  induction objs as [|o r IH]; intros out s s' H.
  - inversion H. constructor.
  - rewrite ScriptExtras.for_images_cons in H.
    destruct (imread (image o)) as [img|] eqn:Ei; [|discriminate].
    destruct (for_labels_here name_count img (labels o) s) as [[ls|ex] s1] eqn:El;
      [|discriminate].
    destruct (for_images_here name_count r s1) as [[r1|ex] s2] eqn:Er;
      [|discriminate].
    inversion H; subst. constructor; [|exact (IH _ _ _ Er)].
    split; [reflexivity|]. exists img. split; [exact Ei|].
    exact (for_labels_independent _ _ _ _ _ _ El).
Qed.

(** X19.  Provided the extractor returns an embedding for every face
    location it is given, the boxes of a batch are annotated
    independently: when the script returns, each label of the output is
    what [process_label] alone makes of the input label, from whatever
    state, so no decision depends on the boxes processed before. *)
Theorem boxes_annotated_independently (objs out : list image_record) :
  fst (main_here objs) = Ok out ->
  exists name_count,
    fst (count_names (names data) (dict_zero (names data)) initial_state)
    = Ok name_count /\
    Forall2 (fun o o' =>
               image o' = image o /\
               exists img,
                 imread (image o) = Some img /\
                 Forall2 (fun l l' =>
                            forall t,
                              fst (process_label_here name_count img l t) = Ok l')
                   (labels o) (labels o'))
      objs out.
Proof.
  destruct objs as [|o objs]; [discriminate|].
  destruct (ScriptExtras.main_unfold Enc Gray face_distance imread face_locations
              face_encodings cvtColor_BGR2GRAY Laplacian_var data o objs)
    as (nc & s0 & Hc & -> & _).
  intros H. exists nc. split; [now rewrite Hc|].
  destruct (for_images_here nc (o :: objs) s0) as [r s1] eqn:E.
  cbn [fst] in H. subst r.
  exact (for_images_independent _ _ _ _ _ E).
Qed.

End Contract.

End Script.

Lemma boxes_annotated_independently_witness :
  exists out name_count,
    fst (main Q nat dist imread_ok one_face encode_each to_gray sharp gallery_A
           batch_ok) = Ok out /\
    fst (count_names (names gallery_A) (dict_zero (names gallery_A))
           initial_state) = Ok name_count /\
    Forall2 (fun o o' =>
               image o' = image o /\
               exists img,
                 imread_ok (image o) = Some img /\
                 Forall2 (fun l l' =>
                            forall t,
                              fst (process_label Q nat dist one_face encode_each
                                     to_gray sharp gallery_A name_count img l t)
                              = Ok l')
                   (labels o) (labels o'))
      batch_ok out.
Proof.
  destruct (fst (main Q nat dist imread_ok one_face encode_each to_gray sharp
                   gallery_A batch_ok)) as [out|ex] eqn:E;
    [|vm_compute in E; discriminate].
  destruct (boxes_annotated_independently Q nat dist imread_ok one_face
              encode_each to_gray sharp gallery_A) with (objs := batch_ok)
                                                        (out := out)
    as (nc & Hnc & Hall).
  - intros rgb locs Hne. unfold encode_each.
    destruct locs; [congruence | discriminate].
  - exact E.
  - exists out, nc. split; [reflexivity|]. split; assumption.
Defined.

End IndependenceExtras.
